(** * cuFile-accelerated file I/O of libcudf: a shallow embedding

    Source: cpp/src/io/utilities/file_io_utilities.cpp.

    The translation keeps the names of the C++ functions.  Machine integers
    are [Z] with their wrap-around written out, [std::string] is [string],
    the process environment and the text files are finite maps, and the
    code that throws runs in a state-and-exception monad over the state of
    the process. *)

From Stdlib Require Import ZArith List String Ascii Lia Bool.
From stdpp Require Import base option list strings gmap.

Local Open Scope Z_scope.

(** ** Exceptions, results, the monad *)

(** [cudf::logic_error], the only exception type the file raises itself. *)
Inductive exn : Type :=
| logic_error (what : string).

Definition what (e : exn) : string :=
  match e with logic_error m => m end.

Inductive result (A : Type) : Type :=
| Ok (a : A)
| Throw (e : exn).
Arguments Ok {A} a.
Arguments Throw {A} e.

(** A computation over a state [S] that returns normally or throws. *)
Definition M (S A : Type) : Type := S -> result A * S.

Definition ret {S A} (a : A) : M S A := fun s => (Ok a, s).

Definition throw {S A} (e : exn) : M S A := fun s => (Throw e, s).

Definition bind {S A B} (m : M S A) (k : A -> M S B) : M S B :=
  fun s =>
    match m s with
    | (Ok a, s') => k a s'
    | (Throw e, s') => (Throw e, s')
    end.

(** [try { m } catch (...) { h }] *)
Definition try_catch {S A} (m : M S A) (h : exn -> M S A) : M S A :=
  fun s =>
    match m s with
    | (Ok a, s') => (Ok a, s')
    | (Throw e, s') => h e s'
    end.

Definition modify {S} (f : S -> S) : M S unit := fun s => (Ok tt, f s).

Definition gets {S A} (f : S -> A) : M S A := fun s => (Ok (f s), s).

Declare Scope cpp_scope.
Delimit Scope cpp_scope with cpp.
Notation "'let*' x := m 'in' k" := (bind m (fun x => k))
  (at level 10, x name, m at level 100, k at level 200, only parsing)
  : cpp_scope.
Local Open Scope cpp_scope.

(** Modelled from the spec: the macros CUDF_EXPECTS and CUDF_FAIL live in
    cudf/utilities/error.hpp, which is not among the sources.  They raise
    [cudf::logic_error]; its message is the reason text behind a prefix that
    names the call site (so the message embeds the reason).  The prefix is
    the function [at_line] of the source line. *)
Section ErrorMacros.
Variable at_line : nat -> string.

Definition CUDF_FAIL {S A} (line : nat) (reason : string) : M S A :=
  throw (logic_error (at_line line +:+ reason)).

Definition CUDF_EXPECTS {S} (line : nat) (cond : bool) (reason : string)
  : M S unit :=
  if cond then ret tt else CUDF_FAIL line reason.
End ErrorMacros.

(** ** Machine integers *)

Definition wrap_size_t (z : Z) : Z := z mod 2 ^ 64.

(** Conversion to [ssize_t] (a two's complement 64-bit integer). *)
Definition wrap_ssize_t (z : Z) : Z := (z + 2 ^ 63) mod 2 ^ 64 - 2 ^ 63.

(** Conversion to [int] (a two's complement 32-bit integer). *)
Definition wrap_int (z : Z) : Z := (z + 2 ^ 31) mod 2 ^ 32 - 2 ^ 31.

(** ** Futures *)

(** A [std::future]: its shared state holds the value or the exception of
    the task.  [get] rethrows a stored exception, [wait] only blocks until
    the state is ready and never rethrows. *)
Record future (A : Type) : Type := mk_future { shared_state : result A }.
Arguments mk_future {A} _.
Arguments shared_state {A} _.

Definition future_get {A} (f : future A) : result A := shared_state f.

Definition future_wait {A} (f : future A) : unit := tt.

(** A future made by [std::async(std::launch::deferred, ...)]: the function
    runs when the future is waited on. *)
Definition deferred (A : Type) : Type := unit -> result A.

Definition deferred_get {A} (d : deferred A) : result A := d tt.

(** [wait] runs the function too, and keeps its outcome in the future. *)
Definition deferred_wait {A} (d : deferred A) : unit :=
  match d tt with Ok _ => tt | Throw _ => tt end.

(** Modelled from the spec: [cudf::detail::thread_pool] is not among the
    sources.  [submit] runs the task on a worker and hands back the future
    of its outcome; a task that throws leaves its exception in the
    future. *)
Definition pool_submit {A} (task : result A) : future A := mk_future task.

(** ** Slicing ([make_sliced_tasks]) *)

Definition max_slice_bytes : Z := 4 * 1024 * 1024.

(** Modelled from the spec: [util::div_rounding_up_safe] lives in
    cudf/detail/utilities/integer_utils.hpp, which is not among the sources;
    the slice count is ceil(size / 4MiB). *)
Definition div_rounding_up_safe (dividend divisor : Z) : Z :=
  if dividend mod divisor =? 0 then dividend / divisor
  else dividend / divisor + 1.

(** The body of the [for] loop, run [fuel] more times; [fuel] is the number
    of iterations that remain, so the loop always finishes.  [function] gets
    the displacement of the slice from [ptr], the slice size and the file
    offset. *)
Fixpoint slice_loop {R} (function : Z -> Z -> Z -> result R)
    (fuel : nat) (t n_slices size offset slice_offset : Z)
  : list (future R) :=
  match fuel with
  | O => []
  | S fuel' =>
    if t <? n_slices then
      let ptr_slice := slice_offset in
      let slice_size :=
        if t =? wrap_size_t (n_slices - 1) then size mod max_slice_bytes
        else max_slice_bytes in
      pool_submit (function ptr_slice slice_size
                     (wrap_size_t (offset + slice_offset)))
        :: slice_loop function fuel' (wrap_size_t (t + 1)) n_slices size
             offset (wrap_size_t (slice_offset + slice_size))
    else []
  end.

Definition make_sliced_tasks {R} (function : Z -> Z -> Z -> result R)
    (offset size : Z) : list (future R) :=
  let n_slices := div_rounding_up_safe size max_slice_bytes in
  let slice_offset := 0 in
  slice_loop function (Z.to_nat n_slices) 0 n_slices size offset slice_offset.

(** A slice as the task sees it. *)
Record slice : Type := mk_slice {
  slice_ptr : Z;      (* displacement from the start of the buffer *)
  slice_size : Z;
  slice_file_offset : Z
}.

(** The slices of a transfer: what the submitted tasks are called with. *)
Definition slices_of (offset size : Z) : list slice :=
  omap (fun f => match future_get f with Ok s => Some s | Throw _ => None end)
    (make_sliced_tasks (fun p s o => Ok (mk_slice p s o)) offset size).

(** ** The read path *)

Section Transfer.
Variable at_line : nat -> string.

(** The backend entry points [cuFileRead] and [cuFileWrite] as the shim
    resolved them: buffer displacement, size and file offset give the
    [ssize_t] the call returns. *)
Variable gds_read : Z -> Z -> Z -> Z.
Variable gds_write : Z -> Z -> Z -> Z.

Definition read_slice (dst size offset : Z) : result Z :=
  let read_size := gds_read dst size offset in
  fst ((let* _ := CUDF_EXPECTS at_line 220 (negb (read_size =? -1))
                    "cuFile error reading from a file" in
        ret read_size) tt).

(** One step of [std::accumulate]: the accumulator has the type of the
    initial value [0], an [int], so the [ssize_t] sum is converted back to
    [int] at every step (the conversion keeps the low 32 bits, so the
    64-bit wrap of the sum need not be written).  An exception of [get]
    leaves the fold. *)
Definition accumulate_step (sum : result Z) (task : future Z) : result Z :=
  match sum with
  | Throw e => Throw e
  | Ok sum =>
    match future_get task with
    | Throw e => Throw e
    | Ok n => Ok (wrap_int (sum + n))
    end
  end.

Definition read_waiter (slice_tasks : list (future Z)) : result Z :=
  match fold_left accumulate_step slice_tasks (Ok 0) with
  | Ok sum => Ok (wrap_size_t sum)
  | Throw e => Throw e
  end.

Definition read_async (offset size : Z) : deferred Z :=
  let slice_tasks := make_sliced_tasks read_slice offset size in
  fun _ => read_waiter slice_tasks.

Definition read (offset size : Z) : result Z :=
  let result := read_async offset size in
  deferred_get result.

(** ** The write path *)

Definition write_slice (src size offset : Z) : result unit :=
  let write_size := gds_write src size offset in
  fst (CUDF_EXPECTS at_line 266
         (negb (write_size =? -1) && (write_size =? wrap_ssize_t size))
         "cuFile error writing to a file" tt).

Definition write_waiter (slice_tasks : list (future unit)) : result unit :=
  Ok (fold_left (fun _ task => future_wait task) slice_tasks tt).

Definition write_async (offset size : Z) : deferred unit :=
  let slice_tasks := make_sliced_tasks write_slice offset size in
  fun _ => write_waiter slice_tasks.

Definition write (offset size : Z) : unit :=
  deferred_wait (write_async offset size).
End Transfer.

Definition MiB : Z := 1024 * 1024.

(** ** The process: environment, files, descriptors, singletons *)

(** Policy modes.  Modelled from the spec: the class [cufile_config] is
    declared in file_io_utilities.hpp, which is not among the sources; the
    spec gives the modes off, optional and required, with
    [is_enabled() = (mode <> off)] and [is_required() = (mode = required)]. *)
Inductive policy_mode : Type := mode_off | mode_optional | mode_required.

Record cufile_config : Type := mk_cufile_config { policy : string }.

Record cufile_shim : Type := mk_cufile_shim {
  cf_lib : option Z;
  driver_open : option Z;
  driver_close : option Z;
  init_error : option exn;
  handle_register : option Z;
  handle_deregister : option Z;
  shim_read : option Z;
  shim_write : option Z
}.

Record file_wrapper : Type := mk_file_wrapper { fd : Z; _size : Z }.

(** Calls that leave the process, in the order they were made.  A pointer is
    [None] when it is null. *)
Inductive event : Type :=
| ev_close (fd : Z)
| ev_dlopen (name : string)
| ev_dlclose (lib : option Z)
| ev_driver_open (fn : option Z)
| ev_driver_close (fn : option Z)
| ev_handle_register (fn : option Z) (fd : Z)
| ev_handle_deregister (fn : option Z) (handle : Z).

(** How a destructor ends: it returns, or the process dies in it. *)
Inductive teardown : Type := returned | crashed.

Record world : Type := mk_world {
  w_env : gmap string string;        (* environment variables *)
  w_files : gmap string string;      (* text files, by path *)
  w_fds : gmap Z string;             (* open descriptors and their files *)
  w_next_fd : nat;                   (* the descriptor the next open gives *)
  w_config : option cufile_config;   (* [static cufile_config _instance] *)
  w_shim : option cufile_shim;       (* [static cufile_shim _instance] *)
  w_log : list event
}.

Definition set_env (f : gmap string string -> gmap string string) (w : world) :=
  mk_world (f (w_env w)) (w_files w) (w_fds w) (w_next_fd w) (w_config w)
    (w_shim w) (w_log w).
Definition set_files (f : gmap string string -> gmap string string) (w : world) :=
  mk_world (w_env w) (f (w_files w)) (w_fds w) (w_next_fd w) (w_config w)
    (w_shim w) (w_log w).
Definition set_fds (f : gmap Z string -> gmap Z string) (n : nat) (w : world) :=
  mk_world (w_env w) (w_files w) (f (w_fds w)) n (w_config w) (w_shim w)
    (w_log w).
Definition set_config (c : option cufile_config) (w : world) :=
  mk_world (w_env w) (w_files w) (w_fds w) (w_next_fd w) c (w_shim w) (w_log w).
Definition set_shim (s : option cufile_shim) (w : world) :=
  mk_world (w_env w) (w_files w) (w_fds w) (w_next_fd w) (w_config w) s
    (w_log w).
Definition log_event (e : event) (w : world) :=
  mk_world (w_env w) (w_files w) (w_fds w) (w_next_fd w) (w_config w)
    (w_shim w) (w_log w ++ [e]).

(** What the code takes from outside this file: the build, the constants of
    the absent header, the file system, the dynamic loader and the backend
    library. *)
Record platform : Type := mk_platform {
  CUFILE_FOUND : bool;
  at_line : nat -> string;
  default_policy : string;
  json_path_env_var : string;
  mode_of_policy : string -> policy_mode;
  tmp_config_dir : string;
  (* open(2): does it succeed for this path, flags and mode *)
  fs_open : string -> Z -> option Z -> bool;
  (* fstat(2) on a descriptor of this file: its size, or failure *)
  fs_fstat : string -> option Z;
  dlopen : string -> option Z;
  dlsym : option Z -> string -> option Z;
  (* calls through resolved pointers; a call through a null pointer is
     undefined in C++, the platform says what it does *)
  call_driver_open : option Z -> bool;
  call_handle_register : option Z -> Z -> option Z
}.

(** [p != nullptr], and a status that is [CU_FILE_SUCCESS]. *)
Definition not_null {A} (p : option A) : bool :=
  match p with Some _ => true | None => false end.

(** Calling a computation again and again: the results in order, and the
    process after the last call. *)
Fixpoint call_n {A} (m : M world A) (n : nat) (w : world)
  : list (result A) * world :=
  match n with
  | O => ([], w)
  | S n' =>
    let (r, w') := m w in
    let (rs, w'') := call_n m n' w' in
    (r :: rs, w'')
  end.

Definition O_RDONLY : Z := 0.
Definition O_RDWR : Z := 2.
Definition O_CREAT : Z := 64.
Definition O_DIRECT : Z := 16384.

Definition newline : ascii := "010"%char.
Definition dquote : ascii := "034"%char.

(** The key the constructor looks for, in its quotes. *)
Definition tag : string :=
  String dquote ("allow_compat_mode" +:+ String dquote EmptyString).

(** [line.find(tag) != std::string::npos] *)
Definition found (tag line : string) : bool :=
  match String.index 0 tag line with Some _ => true | None => false end.

(** The lines [std::getline] delivers from a stream with this content: the
    text up to each newline, the newline dropped, and a last line without
    newline when it is not empty. *)
Fixpoint getlines (content : string) : list string :=
  match content with
  | EmptyString => []
  | String c rest =>
    if Ascii.eqb c newline then EmptyString :: getlines rest
    else match getlines rest with
         | [] => [String c EmptyString]
         | line :: lines => String c line :: lines
         end
  end.

(** [setenv(3)]: EINVAL for an empty name or one with an equals sign. *)
Definition valid_env_name (name : string) : bool :=
  negb (String.eqb name EmptyString) && negb (found "=" name).

Section Process.
Variable P : platform.

Abbreviation EXPECTS := (CUDF_EXPECTS (at_line P)).
Abbreviation FAIL := (CUDF_FAIL (at_line P)).

(** *** OS primitives *)

Definition sys_open (filepath : string) (flags : Z) (mode : option Z)
  : M world Z :=
  fun w =>
    if fs_open P filepath flags mode then
      let d := Z.of_nat (w_next_fd w) in
      (Ok d, set_fds (insert d filepath) (S (w_next_fd w)) w)
    else (Ok (-1), w).

(** [fstat]: the return code and [st_size]. *)
Definition sys_fstat (d : Z) : M world (Z * Z) :=
  fun w =>
    if d <? 0 then (Ok (-1, 0), w)
    else match w_fds w !! d with
         | None => (Ok (-1, 0), w)
         | Some path =>
           match fs_fstat P path with
           | Some st_size => (Ok (0, st_size), w)
           | None => (Ok (-1, 0), w)
           end
         end.

Definition sys_close (d : Z) : M world unit :=
  modify (fun w => log_event (ev_close d)
                     (set_fds (delete d) (w_next_fd w) w)).

Definition sys_getenv (name : string) : M world (option string) :=
  gets (fun w => w_env w !! name).

Definition sys_setenv (name value : string) (overwrite : Z) : M world Z :=
  fun w =>
    if negb (valid_env_name name) then (Ok (-1), w)
    else match w_env w !! name with
         | Some _ =>
           if overwrite =? 0 then (Ok 0, w)
           else (Ok 0, set_env (insert name value) w)
         | None => (Ok 0, set_env (insert name value) w)
         end.

(** Modelled from the spec: [getenv_or] lives in io/utilities/config_utils.hpp,
    which is not among the sources; it gives the value of the variable,
    else the default. *)
Definition getenv_or (name default_val : string) : M world string :=
  let* v := sys_getenv name in
  ret (match v with Some s => s | None => default_val end).

(** *** file_wrapper *)

Definition get_file_size (file_descriptor : Z) : M world Z :=
  let* r := sys_fstat file_descriptor in
  let* _ := EXPECTS 34%nat (negb (fst r =? -1)) "Cannot query file size" in
  ret (wrap_size_t (snd r)).

(** The members are initialised in the order of the initialiser list, then
    the body runs.  An exception leaves the constructor at once: no object
    exists, and no destructor runs for it. *)
Definition file_wrapper_ctor (filepath : string) (flags : Z)
    (mode : option Z) : M world file_wrapper :=
  let* d := sys_open filepath flags mode in
  let* sz := get_file_size d in
  let* _ := EXPECTS (match mode with Some _ => 47 | None => 41 end)%nat (negb (d =? -1))
              ("Cannot open file " +:+ filepath) in
  ret (mk_file_wrapper d sz).

Definition file_wrapper_dtor (f : file_wrapper) : M world unit :=
  sys_close (fd f).

(** *** cufile_config *)

Definition mode_of (c : cufile_config) : policy_mode :=
  mode_of_policy P (policy c).

Definition is_enabled (c : cufile_config) : bool :=
  match mode_of c with mode_off => false | _ => true end.

Definition is_required (c : cufile_config) : bool :=
  match mode_of c with mode_required => true | _ => false end.

(** [std::ofstream cudf_config_file(path)] creates or empties the file;
    [<<] appends to it. *)
Definition ofstream_open (path : string) : M world unit :=
  modify (set_files (insert path EmptyString)).

Definition ofstream_put (path text : string) : M world unit :=
  modify (set_files (fun fs =>
    insert path (match fs !! path with
                 | Some old => old +:+ text
                 | None => text
                 end) fs)).

(** What [user_config_file] delivers: the lines of the file when the first
    [getline] runs, none for a file that could not be opened. *)
Definition ifstream_lines (path : string) : M world (list string) :=
  gets (fun w => match w_files w !! path with
                 | Some content => getlines content
                 | None => []
                 end).

Definition compat_value (this : cufile_config) : string :=
  if is_required this then "true" else "false".

(** The [while (std::getline(user_config_file, line))] loop, one line per
    step. *)
Fixpoint config_loop (this : cufile_config) (cudf_config_path : string)
    (lines : list string) : M world unit :=
  match lines with
  | [] => ret tt
  | line :: rest =>
    let* _ :=
      if found tag line
      then ofstream_put cudf_config_path
             (tag +:+ ": " +:+ compat_value this +:+ ","
                +:+ String newline EmptyString)
      else ofstream_put cudf_config_path
             (line +:+ String newline EmptyString) in
    let* r := sys_setenv (json_path_env_var P) cudf_config_path 0 in
    let* _ := EXPECTS 76%nat (r =? 0)
      "Failed to set the cuFile config file environment variable." in
    config_loop this cudf_config_path rest
  end.

Definition cufile_config_ctor : M world cufile_config :=
  let* policy := getenv_or "LIBCUDF_CUFILE_POLICY" (default_policy P) in
  let this := mk_cufile_config policy in
  if is_enabled this then
    let* config_file_path :=
      getenv_or (json_path_env_var P) "/etc/cufile.json" in
    let cudf_config_path := tmp_config_dir P +:+ "/cufile.json" in
    let* _ := ofstream_open cudf_config_path in
    let* lines := ifstream_lines config_file_path in
    let* _ := config_loop this cudf_config_path lines in
    ret this
  else ret this.

(** A function-local [static]: constructed by the first call that gets
    through the constructor, kept for the rest of the process. *)
Definition cufile_config_instance : M world cufile_config :=
  fun w =>
    match w_config w with
    | Some c => (Ok c, w)
    | None =>
      match cufile_config_ctor w with
      | (Ok c, w') => (Ok c, set_config (Some c) w')
      | (Throw e, w') => (Throw e, w')
      end
    end.

(** *** cufile_shim *)

Definition shim_default : cufile_shim :=
  mk_cufile_shim None None None None None None None None.

Definition set_cf_lib v (s : cufile_shim) :=
  mk_cufile_shim v (driver_open s) (driver_close s) (init_error s)
    (handle_register s) (handle_deregister s) (shim_read s) (shim_write s).
Definition set_driver_open v (s : cufile_shim) :=
  mk_cufile_shim (cf_lib s) v (driver_close s) (init_error s)
    (handle_register s) (handle_deregister s) (shim_read s) (shim_write s).
Definition set_driver_close v (s : cufile_shim) :=
  mk_cufile_shim (cf_lib s) (driver_open s) v (init_error s)
    (handle_register s) (handle_deregister s) (shim_read s) (shim_write s).
Definition set_init_error v (s : cufile_shim) :=
  mk_cufile_shim (cf_lib s) (driver_open s) (driver_close s) v
    (handle_register s) (handle_deregister s) (shim_read s) (shim_write s).
Definition set_handle_register v (s : cufile_shim) :=
  mk_cufile_shim (cf_lib s) (driver_open s) (driver_close s) (init_error s)
    v (handle_deregister s) (shim_read s) (shim_write s).
Definition set_handle_deregister v (s : cufile_shim) :=
  mk_cufile_shim (cf_lib s) (driver_open s) (driver_close s) (init_error s)
    (handle_register s) v (shim_read s) (shim_write s).
Definition set_shim_read v (s : cufile_shim) :=
  mk_cufile_shim (cf_lib s) (driver_open s) (driver_close s) (init_error s)
    (handle_register s) (handle_deregister s) v (shim_write s).
Definition set_shim_write v (s : cufile_shim) :=
  mk_cufile_shim (cf_lib s) (driver_open s) (driver_close s) (init_error s)
    (handle_register s) (handle_deregister s) (shim_read s) v.

Definition is_valid (s : cufile_shim) : bool :=
  match init_error s with None => true | Some _ => false end.

(** The constructor body runs over the object under construction and the
    process. *)
Definition this_set (f : cufile_shim -> cufile_shim)
  : M (cufile_shim * world) unit :=
  modify (fun s => (f (fst s), snd s)).

Definition this_get {A} (f : cufile_shim -> A) : M (cufile_shim * world) A :=
  gets (fun s => f (fst s)).

Definition emit (e : event) : M (cufile_shim * world) unit :=
  modify (fun s => (fst s, log_event e (snd s))).

(** [field = dlsym(cf_lib, name); CUDF_EXPECTS(field != nullptr, ...)] *)
Definition resolve (line : nat) (name : string)
    (set : option Z -> cufile_shim -> cufile_shim)
  : M (cufile_shim * world) unit :=
  let* lib := this_get cf_lib in
  let sym := dlsym P lib name in
  let* _ := this_set (set sym) in
  EXPECTS line (not_null sym)
    ("could not find cuFile " +:+ name +:+ " symbol").

Definition cufile_shim_try : M (cufile_shim * world) unit :=
  let* _ := emit (ev_dlopen "libcufile.so") in
  let* _ := this_set (set_cf_lib (dlopen P "libcufile.so")) in
  let* _ := resolve 124 "cuFileDriverOpen" set_driver_open in
  let* _ := resolve 126 "cuFileDriverClose" set_driver_close in
  let* _ := resolve 129 "cuFileHandleRegister" set_handle_register in
  let* _ := resolve 132 "cuFileHandleDeregister" set_handle_deregister in
  let* _ := resolve 135 "cuFileRead" set_shim_read in
  let* _ := resolve 137 "cuFileWrite" set_shim_write in
  let* f := this_get driver_open in
  let* _ := emit (ev_driver_open f) in
  EXPECTS 139%nat (call_driver_open P f) "Failed to initialize cuFile driver".

(** [try { ... } catch (cudf::logic_error const& err) { init_error = ... }]:
    the constructor itself never throws. *)
Definition cufile_shim_ctor : M world cufile_shim :=
  fun w =>
    match cufile_shim_try (shim_default, w) with
    | (Ok _, (this, w')) => (Ok this, w')
    | (Throw err, (this, w')) => (Ok (set_init_error (Some err) this), w')
    end.

(** [~cufile_shim() { driver_close(); dlclose(cf_lib); }], with no test of
    the state of the shim.  A call through a null function pointer is
    undefined: the process dies in it, and [dlclose] is not reached. *)
Definition cufile_shim_dtor (s : cufile_shim) (w : world) : teardown * world :=
  let w1 := log_event (ev_driver_close (driver_close s)) w in
  match driver_close s with
  | None => (crashed, w1)
  | Some _ => (returned, log_event (ev_dlclose (cf_lib s)) w1)
  end.

Definition init_error_what (s : cufile_shim) : string :=
  match init_error s with Some e => what e | None => EmptyString end.

Definition cufile_shim_instance : M world cufile_shim :=
  let* _instance :=
    (fun w =>
       match w_shim w with
       | Some s => (Ok s, w)
       | None =>
         match cufile_shim_ctor w with
         | (Ok s, w') => (Ok s, set_shim (Some s) w')
         | (Throw e, w') => (Throw e, w')
         end
       end) in
  if negb (is_valid _instance)
  then FAIL 149%nat (EmptyString +:+ init_error_what _instance)
  else ret _instance.

(** *** cufile_registered_file *)

Record cufile_registered_file : Type := mk_cufile_registered_file {
  _file : file_wrapper;
  rf_shim : cufile_shim;
  cf_handle : Z
}.

(** The handle the backend filled in, or the exception. *)
Definition register_handle (shim : cufile_shim) (f : file_wrapper)
  : M world Z :=
  let* _ := modify (log_event
              (ev_handle_register (handle_register shim) (fd f))) in
  let r := call_handle_register P (handle_register shim) (fd f) in
  let* _ := EXPECTS 159%nat (not_null r)
              "Cannot register file handle with cuFile" in
  ret (match r with Some h => h | None => 0 end).

Definition cufile_registered_file_dtor (r : cufile_registered_file)
  : M world unit :=
  let* _ := modify (log_event
              (ev_handle_deregister (handle_deregister (rf_shim r))
                 (cf_handle r))) in
  file_wrapper_dtor (_file r).

(** Modelled from the spec: the constructor of [cufile_registered_file] is
    in file_io_utilities.hpp, which is not among the sources.  It opens the
    FileHandle, then registers its descriptor with the backend; when the
    registration throws, the already constructed member [_file] is
    destroyed, as C++ does for an exception in a constructor body. *)
Definition cufile_registered_file_ctor (shim : cufile_shim)
    (filepath : string) (flags : Z) (mode : option Z)
  : M world cufile_registered_file :=
  let* f := file_wrapper_ctor filepath flags mode in
  let* h := try_catch (register_handle shim f)
              (fun e => let* _ := file_wrapper_dtor f in throw e) in
  ret (mk_cufile_registered_file f shim h).

(** *** The engines and their factories *)

Record cufile_input_impl : Type := mk_cufile_input_impl {
  in_shim : cufile_shim;
  in_cf_file : cufile_registered_file;
  in_pool_threads : nat;
  in_sleep_duration : nat
}.

Record cufile_output_impl : Type := mk_cufile_output_impl {
  out_shim : cufile_shim;
  out_cf_file : cufile_registered_file;
  out_pool_threads : nat
}.

Definition cufile_input_impl_ctor (filepath : string)
  : M world cufile_input_impl :=
  let* shim := cufile_shim_instance in
  let* cf_file := cufile_registered_file_ctor shim filepath
                    (Z.lor O_RDONLY O_DIRECT) None in
  ret (mk_cufile_input_impl shim cf_file 16 10).

Definition cufile_output_impl_ctor (filepath : string)
  : M world cufile_output_impl :=
  let* shim := cufile_shim_instance in
  let* cf_file := cufile_registered_file_ctor shim filepath
                    (Z.lor (Z.lor O_CREAT O_RDWR) O_DIRECT) (Some 436) in
  ret (mk_cufile_output_impl shim cf_file 16).

(** [nullptr] is [None]; the [catch] that does not rethrow falls through
    to the final [return nullptr]. *)
Definition make_cufile_input (filepath : string)
  : M world (option cufile_input_impl) :=
  if CUFILE_FOUND P then
    let* config := cufile_config_instance in
    if is_enabled config then
      try_catch
        (let* e := cufile_input_impl_ctor filepath in ret (Some e))
        (fun ex =>
           let* config := cufile_config_instance in
           if is_required config then throw ex else ret None)
    else ret None
  else ret None.

Definition make_cufile_output (filepath : string)
  : M world (option cufile_output_impl) :=
  if CUFILE_FOUND P then
    let* config := cufile_config_instance in
    if is_enabled config then
      try_catch
        (let* e := cufile_output_impl_ctor filepath in ret (Some e))
        (fun ex =>
           let* config := cufile_config_instance in
           if is_required config then throw ex else ret None)
    else ret None
  else ret None.
End Process.

(** ** Definitions for the statements *)

Definition task_of {R} (function : Z -> Z -> Z -> result R) (s : slice)
  : future R :=
  pool_submit (function (slice_ptr s) (slice_size s) (slice_file_offset s)).

(** A platform for the examples: one library handle, every symbol at the
    address 1, and the four answers that vary. *)
Definition example_platform (open_ok : bool) (stat : option Z)
    (lib : option Z) (driver_ok : bool) (mode : policy_mode) : platform :=
  {| CUFILE_FOUND := true;
     at_line := fun _ => "cuDF failure: ";
     default_policy := "DEFAULT";
     json_path_env_var := "CUFILE_ENV_PATH_JSON";
     mode_of_policy := fun _ => mode;
     tmp_config_dir := "/tmp/cudf_cufile_config";
     fs_open := fun _ _ _ => open_ok;
     fs_fstat := fun _ => stat;
     dlopen := fun _ => lib;
     dlsym := fun l _ => match l with Some _ => Some 1 | None => None end;
     call_driver_open := fun _ => driver_ok;
     call_handle_register := fun _ d => Some d |}.

Definition empty_world : world :=
  mk_world ∅ ∅ ∅ 3 None None [].

(** The same platform in a build that does not define CUFILE_FOUND. *)
Definition without_cufile (P : platform) : platform :=
  {| CUFILE_FOUND := false;
     at_line := at_line P;
     default_policy := default_policy P;
     json_path_env_var := json_path_env_var P;
     mode_of_policy := mode_of_policy P;
     tmp_config_dir := tmp_config_dir P;
     fs_open := fs_open P;
     fs_fstat := fs_fstat P;
     dlopen := dlopen P;
     dlsym := dlsym P;
     call_driver_open := call_driver_open P;
     call_handle_register := call_handle_register P |}.

Fixpoint no_newline (s : string) : bool :=
  match s with
  | EmptyString => true
  | String c rest => negb (Ascii.eqb c newline) && no_newline rest
  end.

(** A file written line by line. *)
Fixpoint unlines (lines : list string) : string :=
  match lines with
  | [] => EmptyString
  | line :: rest => (line +:+ String newline EmptyString) +:+ unlines rest
  end.

(** The policy string, the path of the user's configuration file and the
    path of the private copy, as the constructor computes them. *)
Definition policy_in (P : platform) (w : world) : string :=
  match w_env w !! "LIBCUDF_CUFILE_POLICY" with
  | Some s => s
  | None => default_policy P
  end.

Definition config_file_path_in (P : platform) (w : world) : string :=
  match w_env w !! json_path_env_var P with
  | Some s => s
  | None => "/etc/cufile.json"
  end.

Definition cudf_config_path (P : platform) : string :=
  tmp_config_dir P +:+ "/cufile.json".

Definition file_lines (w : world) (path : string) : list string :=
  match w_files w !! path with
  | Some content => getlines content
  | None => []
  end.

(** The line the private copy gets for a line of the user's file, with the
    value the compatibility key gets under each mode: the one the code
    writes, and the one of the specification. *)
Definition rewritten (value : policy_mode -> string) (m : policy_mode)
    (line : string) : string :=
  if found tag line then tag +:+ ": " +:+ value m +:+ "," else line.

Definition value_in_code (m : policy_mode) : string :=
  match m with mode_required => "true" | _ => "false" end.

Definition value_in_spec (m : policy_mode) : string :=
  match m with mode_optional => "true" | _ => "false" end.

(** The parts of the process the constructor leaves alone. *)
Definition rest_of_process (w : world) :=
  (w_fds w, w_next_fd w, w_config w, w_shim w, w_log w).

(** The environment after the loop has seen at least one line. *)
Definition env_pointed (P : platform) (env : gmap string string)
  : gmap string string :=
  match env !! json_path_env_var P with
  | Some _ => env
  | None => <[json_path_env_var P := cudf_config_path P]> env
  end.

(** A user's configuration file of three lines, and a process that has it at
    the default path and no environment variable set. *)
Definition user_config : string :=
  unlines ["{"; "  " +:+ tag +:+ ": true,"; "}"].

Definition config_world : world :=
  mk_world ∅ {["/etc/cufile.json" := user_config]} ∅ 3 None None [].

(** Everything of the process but the log of calls. *)
Definition except_log (w : world) :=
  (w_env w, w_files w, w_fds w, w_next_fd w, w_config w, w_shim w).

(** A computation that leaves a part of the process as it found it,
    whether it returns or throws. *)
Definition keeps {A B} (part : world -> B) (m : M world A) : Prop :=
  forall w, part (snd (m w)) = part w.

(** The closed form of the slices: the number of slices, and the slice the
    loop makes at its turn [i]. *)
Definition n_slices_of (size : Z) : Z :=
  div_rounding_up_safe size max_slice_bytes.

Definition slice_at (offset size i : Z) : slice :=
  mk_slice (i * max_slice_bytes)
    (if i =? n_slices_of size - 1 then size mod max_slice_bytes
     else max_slice_bytes)
    (wrap_size_t (offset + i * max_slice_bytes)).

Definition total_size (l : list slice) : Z :=
  fold_right Z.add 0 (map slice_size l).

(** What the backend reports for a slice, and for a list of slices. *)
Definition reported (gds : Z -> Z -> Z -> Z) (s : slice) : Z :=
  gds (slice_ptr s) (slice_size s) (slice_file_offset s).

Definition total_reported (gds : Z -> Z -> Z -> Z) (l : list slice) : Z :=
  fold_right Z.add 0 (map (reported gds) l).

(** The symbols the constructor of the shim resolves, in its order. *)
Definition shim_symbols : list string :=
  ["cuFileDriverOpen"; "cuFileDriverClose"; "cuFileHandleRegister";
   "cuFileHandleDeregister"; "cuFileRead"; "cuFileWrite"].

Definition all_resolved (P : platform) : bool :=
  forallb (fun name => not_null (dlsym P (dlopen P "libcufile.so") name))
    shim_symbols.

(** * Properties *)

(** ** Slicing *)

Lemma slice_loop_map {R} (function : Z -> Z -> Z -> result R) fuel :
  forall t n size offset slice_offset,
    slice_loop function fuel t n size offset slice_offset =
    map (task_of function)
      (omap (fun f => match future_get f with
                      | Ok s => Some s
                      | Throw _ => None
                      end)
         (slice_loop (fun p s o => Ok (mk_slice p s o)) fuel t n size offset
            slice_offset)).
Proof.
  induction fuel as [|fuel IH]; intros t n size offset so; simpl.
  - reflexivity.
  - destruct (t <? n); simpl; [|reflexivity].
    f_equal. apply IH.
Qed.

(** The futures [make_sliced_tasks] returns are the tasks of the slices. *)
Lemma make_sliced_tasks_map {R} (function : Z -> Z -> Z -> result R)
    offset size :
  make_sliced_tasks function offset size =
  map (task_of function) (slices_of offset size).
Proof. unfold make_sliced_tasks, slices_of. apply slice_loop_map. Qed.

Example slices_10MiB :
  slices_of 0 (10 * MiB) =
  [mk_slice 0 (4 * MiB) 0; mk_slice (4 * MiB) (4 * MiB) (4 * MiB);
   mk_slice (8 * MiB) (2 * MiB) (8 * MiB)].
Proof. vm_compute. reflexivity. Qed.

(** C8: a read of 10 MiB at offset 0 is cut into the three slices of 4, 4
    and 2 MiB at the offsets 0, 4 MiB and 8 MiB, and when the backend
    transfers every slice in full the read returns 10,485,760. *)
Theorem C8_ten_MiB_read :
  slices_of 0 10485760 =
    [mk_slice 0 4194304 0; mk_slice 4194304 4194304 4194304;
     mk_slice 8388608 2097152 8388608] /\
  forall (at_line : nat -> string) (gds_read : Z -> Z -> Z -> Z),
    (forall s, In s (slices_of 0 10485760) ->
       gds_read (slice_ptr s) (slice_size s) (slice_file_offset s)
       = slice_size s) ->
    read at_line gds_read 0 10485760 = Ok 10485760.
Proof.
  assert (E : slices_of 0 10485760 =
    [mk_slice 0 4194304 0; mk_slice 4194304 4194304 4194304;
     mk_slice 8388608 2097152 8388608]) by (vm_compute; reflexivity).
  split; [exact E|].
  intros at_line gds_read H.
  unfold read, deferred_get, read_async.
  rewrite make_sliced_tasks_map, E. rewrite E in H.
  assert (H0 := H _ (or_introl eq_refl)).
  assert (H1 := H _ (or_intror (or_introl eq_refl))).
  assert (H2 := H _ (or_intror (or_intror (or_introl eq_refl)))).
  simpl in H0, H1, H2.
  unfold read_waiter, task_of, read_slice; simpl.
  rewrite H0, H1, H2. vm_compute. reflexivity.
Qed.

Lemma C8_ten_MiB_read_witness :
  read (fun _ => EmptyString) (fun _ size _ => size) 0 10485760 = Ok 10485760.
Proof. apply (proj2 C8_ten_MiB_read). intros s _. reflexivity. Defined.

(** *** The slices in general *)

Lemma n_slices_facts (size : Z) :
  0 <= size < 2 ^ 64 ->
  0 <= n_slices_of size < 2 ^ 64 /\
  (0 < n_slices_of size -> (n_slices_of size - 1) * max_slice_bytes < size) /\
  (n_slices_of size = 0 <-> size = 0) /\
  (size mod max_slice_bytes <> 0 ->
   (n_slices_of size - 1) * max_slice_bytes + size mod max_slice_bytes = size) /\
  (size mod max_slice_bytes = 0 ->
   n_slices_of size * max_slice_bytes = size).
Proof.
  intros Hs. unfold n_slices_of, div_rounding_up_safe.
  change max_slice_bytes with 4194304.
  pose proof (Z.div_mod size 4194304 ltac:(lia)) as Hdm.
  pose proof (Z.mod_pos_bound size 4194304 ltac:(lia)) as Hm.
  destruct (Z.eqb_spec (size mod 4194304) 0) as [E|E]; repeat split; lia.
Qed.

Lemma slice_loop_closed (offset size : Z) (fuel : nat) :
  0 <= size < 2 ^ 64 ->
  forall t,
    0 <= t ->
    t + Z.of_nat fuel = n_slices_of size ->
    omap (fun f => match future_get f with Ok s => Some s | Throw _ => None end)
      (slice_loop (fun p s o => Ok (mk_slice p s o)) fuel t (n_slices_of size)
         size offset (t * max_slice_bytes))
    = map (slice_at offset size) (seqZ t (Z.of_nat fuel)).
Proof.
  intros Hs.
  destruct (n_slices_facts size Hs) as (Hn & Hlast & _).
  induction fuel as [|fuel IH]; intros t Ht Hsum; [reflexivity|].
  cbn [slice_loop].
  assert (Hlt : (t <? n_slices_of size) = true) by (apply Z.ltb_lt; lia).
  rewrite Hlt.
  assert (Hw : wrap_size_t (n_slices_of size - 1) = n_slices_of size - 1).
  { unfold wrap_size_t. apply Z.mod_small. lia. }
  rewrite Hw.
  rewrite (seqZ_cons t) by lia.
  cbn [omap list_omap pool_submit future_get shared_state map]. f_equal.
  destruct fuel as [|fuel]; [reflexivity|].
  assert (Hne : (t =? n_slices_of size - 1) = false) by (apply Z.eqb_neq; lia).
  rewrite Hne.
  assert (Ht1 : wrap_size_t (t + 1) = Z.succ t).
  { unfold wrap_size_t. rewrite Z.mod_small; lia. }
  assert (Hso : wrap_size_t (t * max_slice_bytes + max_slice_bytes)
                = Z.succ t * max_slice_bytes).
  { unfold wrap_size_t. rewrite Z.mod_small; [lia|].
    revert Hlast. change max_slice_bytes with 4194304. intros Hlast. nia. }
  rewrite Ht1, Hso.
  replace (Z.pred (Z.of_nat (S (S fuel)))) with (Z.of_nat (S fuel)) by lia.
  apply IH; lia.
Qed.

(** The slices of every transfer, in closed form. *)
Lemma slices_of_closed (offset size : Z) :
  0 <= size < 2 ^ 64 ->
  slices_of offset size
  = map (slice_at offset size) (seqZ 0 (n_slices_of size)).
Proof.
  intros Hs. unfold slices_of, make_sliced_tasks.
  destruct (n_slices_facts size Hs) as (Hn & _).
  fold (n_slices_of size).
  rewrite <- (Z2Nat.id (n_slices_of size)) at 3 by lia.
  apply (slice_loop_closed offset size _ Hs 0); [lia|].
  rewrite Z2Nat.id; lia.
Qed.

(** There are ceil(size / 4 MiB) slices, none for an empty transfer. *)
Lemma slices_of_length (offset size : Z) :
  0 <= size < 2 ^ 64 ->
  length (slices_of offset size) = Z.to_nat (n_slices_of size).
Proof.
  intros Hs. rewrite (slices_of_closed _ _ Hs), length_map, length_seqZ.
  reflexivity.
Qed.

(** No slice is larger than 4 MiB, and the slices follow one another in
    steps of 4 MiB. *)
Lemma slices_of_bounded (offset size : Z) (i : nat) (s : slice) :
  0 <= size < 2 ^ 64 ->
  slices_of offset size !! i = Some s ->
  0 <= slice_size s <= max_slice_bytes /\
  slice_ptr s = Z.of_nat i * max_slice_bytes /\
  slice_file_offset s = wrap_size_t (offset + Z.of_nat i * max_slice_bytes).
Proof.
  intros Hs. rewrite (slices_of_closed _ _ Hs).
  change (map (slice_at offset size)) with (fmap (M:=list) (slice_at offset size)).
  rewrite list_lookup_fmap.
  destruct (seqZ 0 (n_slices_of size) !! i) as [k|] eqn:Hk; [|discriminate].
  apply lookup_seqZ in Hk as [-> Hi]. simpl. intros [= <-].
  unfold slice_at; simpl.
  pose proof (Z.mod_pos_bound size max_slice_bytes ltac:(reflexivity)).
  split; [|split; reflexivity].
  destruct (_ =? _); [lia|]. change max_slice_bytes with 4194304. lia.
Qed.

Lemma total_size_closed (offset size : Z) (len : nat) :
  forall t,
    t + Z.of_nat (S len) = n_slices_of size ->
    total_size (map (slice_at offset size) (seqZ t (Z.of_nat (S len))))
    = Z.of_nat len * max_slice_bytes + size mod max_slice_bytes.
Proof.
  induction len as [|len IH]; intros t Hsum.
  - change (seqZ t (Z.of_nat 1)) with [0 + t]. rewrite Z.add_0_l.
    unfold total_size, slice_at. cbn [map fold_right slice_size].
    assert (E : (t =? n_slices_of size - 1) = true) by (apply Z.eqb_eq; lia).
    rewrite E. lia.
  - rewrite (seqZ_cons t) by lia.
    replace (Z.pred (Z.of_nat (S (S len)))) with (Z.of_nat (S len)) by lia.
    unfold total_size in *. cbn [map fold_right].
    rewrite IH by lia.
    unfold slice_at at 1; cbn [slice_size].
    assert (E : (t =? n_slices_of size - 1) = false) by (apply Z.eqb_neq; lia).
    rewrite E. lia.
Qed.

(** The sizes of the slices add up to the size of the transfer unless it is
    a positive multiple of 4 MiB; then the last 4 MiB are missing. *)
Lemma slices_of_total (offset size : Z) :
  0 <= size < 2 ^ 64 ->
  total_size (slices_of offset size)
  = if (0 <? size) && (size mod max_slice_bytes =? 0)
    then size - max_slice_bytes else size.
Proof.
  intros Hs. rewrite (slices_of_closed _ _ Hs).
  destruct (n_slices_facts size Hs) as (Hn & _ & H0 & Hrem & Hmul).
  destruct (Z.eq_dec size 0) as [->|Hpos]; [reflexivity|].
  assert (Hn1 : 0 < n_slices_of size) by (destruct H0; lia).
  assert (Hlt : (0 <? size) = true) by (apply Z.ltb_lt; lia).
  rewrite Hlt. cbn [andb].
  rewrite <- (Z2Nat.id (n_slices_of size)) at 1 by lia.
  destruct (Z.to_nat (n_slices_of size)) as [|len] eqn:Hlen; [lia|].
  rewrite (total_size_closed offset size len 0) by lia.
  destruct (Z.eqb_spec (size mod max_slice_bytes) 0) as [E|E].
  - specialize (Hmul E). lia.
  - specialize (Hrem E). lia.
Qed.

(** *** The read path in general *)

Lemma read_slice_ok at_line gds_read dst size offset :
  gds_read dst size offset <> -1 ->
  read_slice at_line gds_read dst size offset = Ok (gds_read dst size offset).
Proof.
  intros H. unfold read_slice, bind, CUDF_EXPECTS.
  apply Z.eqb_neq in H. rewrite H. reflexivity.
Qed.

Lemma read_slice_error at_line gds_read dst size offset :
  gds_read dst size offset = -1 ->
  read_slice at_line gds_read dst size offset
  = Throw (logic_error (at_line 220%nat +:+ "cuFile error reading from a file")).
Proof.
  intros H. unfold read_slice, bind, CUDF_EXPECTS. rewrite H. reflexivity.
Qed.

Lemma wrap_int_small (z : Z) : - 2 ^ 31 <= z < 2 ^ 31 -> wrap_int z = z.
Proof. intros H. unfold wrap_int. rewrite Z.mod_small; lia. Qed.

Lemma total_size_nonneg (l : list slice) :
  Forall (fun s => 0 <= slice_size s) l -> 0 <= total_size l.
Proof.
  induction 1 as [|s l Hs _ IH]; unfold total_size in *; simpl; lia.
Qed.

(** While the sum fits an [int], the waiter adds up what the backend
    reported for the slices. *)
Lemma accumulate_full at_line gds_read (l : list slice) :
  Forall (fun s => 0 <= slice_size s /\
            gds_read (slice_ptr s) (slice_size s) (slice_file_offset s)
            = slice_size s) l ->
  forall acc,
    0 <= acc ->
    acc + total_size l < 2 ^ 31 ->
    fold_left accumulate_step (map (task_of (read_slice at_line gds_read)) l)
      (Ok acc)
    = Ok (acc + total_size l).
Proof.
  induction 1 as [|s l [Hs Hg] Hl IH]; intros acc Hacc Hsum.
  - unfold total_size; simpl. f_equal. lia.
  - assert (Hrest : 0 <= total_size l).
    { apply total_size_nonneg. eapply Forall_impl; [exact Hl|].
      intros x Hx. apply Hx. }
    assert (Ht : total_size (s :: l) = slice_size s + total_size l)
      by reflexivity.
    cbn [map fold_left]. unfold accumulate_step at 2, task_of at 2.
    cbn [future_get pool_submit shared_state].
    rewrite read_slice_ok by lia. rewrite Hg.
    rewrite wrap_int_small by lia.
    rewrite IH by lia. f_equal. lia.
Qed.

(** A read below 2 GiB from a backend that transfers every slice in full
    returns the total size of its slices: its size, unless that is a
    positive multiple of 4 MiB. *)
Lemma read_full_transfer at_line gds_read (offset size : Z) :
  0 <= size < 2 ^ 31 ->
  (forall s, In s (slices_of offset size) ->
     gds_read (slice_ptr s) (slice_size s) (slice_file_offset s)
     = slice_size s) ->
  read at_line gds_read offset size
  = Ok (if (0 <? size) && (size mod max_slice_bytes =? 0)
        then size - max_slice_bytes else size).
Proof.
  intros Hs Hg.
  assert (Hs64 : 0 <= size < 2 ^ 64) by lia.
  unfold read, deferred_get, read_async, read_waiter.
  rewrite make_sliced_tasks_map.
  assert (Hall : Forall (fun s => 0 <= slice_size s /\
            gds_read (slice_ptr s) (slice_size s) (slice_file_offset s)
            = slice_size s) (slices_of offset size)).
  { apply Forall_forall. intros s Hin. split.
    - apply list_elem_of_lookup in Hin as [i Hi].
      apply (slices_of_bounded offset size i s Hs64 Hi).
    - apply Hg. apply list_elem_of_In. exact Hin. }
  pose proof (slices_of_total offset size Hs64) as Htot.
  assert (Hbound : 0 + total_size (slices_of offset size) < 2 ^ 31).
  { rewrite Htot. change max_slice_bytes with 4194304.
    destruct (_ && _); lia. }
  rewrite (accumulate_full at_line gds_read _ Hall 0 ltac:(lia) Hbound).
  rewrite Z.add_0_l, Htot. f_equal.
  unfold wrap_size_t. apply Z.mod_small.
  change max_slice_bytes with 4194304.
  destruct (0 <? size) eqn:E1; destruct (size mod 4194304 =? 0) eqn:E2;
    cbn [andb]; try lia.
  apply Z.ltb_lt in E1. apply Z.eqb_eq in E2.
  pose proof (Z.div_mod size 4194304 ltac:(lia)). 
  assert (0 < size / 4194304) by nia. nia.
Qed.

(** C1: at a size that is a positive multiple of 4 MiB the last slice gets
    [size % max_slice_bytes = 0] bytes: a read of 4 MiB is one slice of no
    bytes and returns 0 from a backend that transfers every slice in full,
    and a read of 8 MiB covers only the first 4 MiB.  Besides, the sum is
    kept in an [int]: a read of 2 GiB + 1 byte that succeeds in full does not
    return its size. *)
Theorem C1_multiple_of_slice_size :
  slices_of 0 4194304 = [mk_slice 0 0 0] /\
  (forall at_line,
     read at_line (fun _ size _ => size) 0 4194304 = Ok 0) /\
  slices_of 0 8388608 = [mk_slice 0 4194304 0; mk_slice 4194304 0 4194304] /\
  (forall at_line,
     read at_line (fun _ size _ => size) 0 8388608 = Ok 4194304) /\
  (forall at_line,
     read at_line (fun _ size _ => size) 0 (2 ^ 31 + 1)
     = Ok (2 ^ 64 - 2 ^ 31 + 1)).
Proof.
  repeat split; intros; vm_compute; reflexivity.
Qed.

(** ** file_wrapper *)

Lemma of_nat_ltb_0 (n : nat) : (Z.of_nat n <? 0) = false.
Proof. apply Z.ltb_ge. lia. Qed.

Lemma of_nat_eqb_m1 (n : nat) : (Z.of_nat n =? -1) = false.
Proof. apply Z.eqb_neq. lia. Qed.

Lemma file_wrapper_ctor_open_fails P filepath flags mode w :
  fs_open P filepath flags mode = false ->
  file_wrapper_ctor P filepath flags mode w
  = (Throw (logic_error (at_line P 34 +:+ "Cannot query file size")), w).
Proof.
  intros Hopen.
  unfold file_wrapper_ctor, bind, sys_open. rewrite Hopen.
  reflexivity.
Qed.

(** C4: when [open] fails the constructor does not reach its own check of
    the descriptor: [get_file_size(-1)] in the initialiser list throws first,
    so the error is the one of the size query and does not carry the path. *)
Theorem C4_open_failure_reported_as_stat_failure
    (P : platform) (filepath : string) (flags : Z) (mode : option Z)
    (w : world) :
  fs_open P filepath flags mode = false ->
  file_wrapper_ctor P filepath flags mode w
  = (Throw (logic_error (at_line P 34 +:+ "Cannot query file size")), w).
Proof. apply file_wrapper_ctor_open_fails. Qed.

Lemma C4_open_failure_witness :
  file_wrapper_ctor (example_platform false None None false mode_off)
    "/no/such/file" O_RDONLY None empty_world
  = (Throw (logic_error "cuDF failure: Cannot query file size"), empty_world).
Proof.
  apply (C4_open_failure_reported_as_stat_failure
           (example_platform false None None false mode_off)).
  reflexivity.
Defined.

(** C9: when [open] succeeds and the size query fails, the constructor
    throws with the new descriptor still open: nothing closes it, since no
    object exists whose destructor would. *)
Theorem C9_descriptor_left_open_when_stat_fails
    (P : platform) (filepath : string) (flags : Z) (mode : option Z)
    (w : world) :
  fs_open P filepath flags mode = true ->
  fs_fstat P filepath = None ->
  exists w',
    file_wrapper_ctor P filepath flags mode w
    = (Throw (logic_error (at_line P 34 +:+ "Cannot query file size")), w') /\
    w_fds w' !! Z.of_nat (w_next_fd w) = Some filepath /\
    w_log w' = w_log w.
Proof.
  intros Hopen Hstat.
  eexists. split.
  - unfold file_wrapper_ctor, bind, sys_open. rewrite Hopen.
    unfold get_file_size, bind, sys_fstat.
    rewrite of_nat_ltb_0. simpl.
    rewrite lookup_insert_eq, Hstat. reflexivity.
  - simpl. split; [apply lookup_insert_eq | reflexivity].
Qed.

Lemma C9_descriptor_left_open_witness :
  exists w',
    file_wrapper_ctor (example_platform true None None false mode_off)
      "/data/in.bin" O_RDONLY None empty_world
    = (Throw (logic_error "cuDF failure: Cannot query file size"), w') /\
    w_fds w' !! 3 = Some "/data/in.bin" /\
    w_log w' = [].
Proof.
  apply (C9_descriptor_left_open_when_stat_fails
           (example_platform true None None false mode_off)
           "/data/in.bin" O_RDONLY None empty_world); reflexivity.
Defined.

(** The rest of what C9 says does hold.  A constructor that returns gives an
    object whose descriptor is open, and the destructor closes it, once. *)
Lemma file_wrapper_ctor_ok P filepath flags mode w f w' :
  file_wrapper_ctor P filepath flags mode w = (Ok f, w') ->
  fd f = Z.of_nat (w_next_fd w) /\
  w_fds w' = <[fd f := filepath]> (w_fds w) /\
  w_log w' = w_log w.
Proof.
  unfold file_wrapper_ctor, bind, sys_open.
  destruct (fs_open P filepath flags mode); simpl.
  - unfold get_file_size, bind, sys_fstat.
    rewrite of_nat_ltb_0. simpl. rewrite lookup_insert_eq.
    destruct (fs_fstat P filepath); simpl.
    + rewrite of_nat_eqb_m1. simpl. intros [= <- <-]. auto.
    + discriminate.
  - discriminate.
Qed.

Lemma file_wrapper_dtor_closes (f : file_wrapper) (w : world) :
  file_wrapper_dtor f w
  = (Ok tt, log_event (ev_close (fd f)) (set_fds (delete (fd f)) (w_next_fd w) w)).
Proof. reflexivity. Qed.

(** The life of an object that was constructed: one [close] of its
    descriptor, after which the descriptor is open no more. *)
Lemma file_wrapper_lifetime P filepath flags mode w f w1 w2 :
  file_wrapper_ctor P filepath flags mode w = (Ok f, w1) ->
  file_wrapper_dtor f w1 = (Ok tt, w2) ->
  w_log w2 = w_log w ++ [ev_close (fd f)] /\
  w_fds w2 = delete (fd f) (w_fds w) /\
  w_fds w2 !! fd f = None.
Proof.
  intros Hctor Hdtor.
  destruct (file_wrapper_ctor_ok P filepath flags mode w f w1 Hctor)
    as (_ & Hfds & Hlog).
  rewrite file_wrapper_dtor_closes in Hdtor. injection Hdtor as <-.
  simpl. rewrite Hlog, Hfds, delete_insert_eq.
  repeat split. apply lookup_delete_eq.
Qed.

(** A constructor that throws because [open] failed leaves no descriptor. *)
Lemma file_wrapper_ctor_open_fails_no_descriptor P filepath flags mode w r w' :
  fs_open P filepath flags mode = false ->
  file_wrapper_ctor P filepath flags mode w = (r, w') -> w' = w.
Proof.
  intros Hopen. rewrite (file_wrapper_ctor_open_fails _ _ _ _ _ Hopen).
  congruence.
Qed.

(** ** The write path *)

(** A slice task succeeds exactly when the backend reports the size of the
    slice. *)
Lemma write_slice_ok_iff at_line gds_write src size offset :
  0 <= size < 2 ^ 63 ->
  write_slice at_line gds_write src size offset = Ok tt <->
  gds_write src size offset = size.
Proof.
  intros Hsize. unfold write_slice, CUDF_EXPECTS, CUDF_FAIL, throw, ret.
  assert (Hw : wrap_ssize_t size = size).
  { unfold wrap_ssize_t. rewrite Z.mod_small; lia. }
  rewrite Hw.
  destruct (Z.eqb_spec (gds_write src size offset) (-1)) as [E1|E1];
    destruct (Z.eqb_spec (gds_write src size offset) size) as [E2|E2];
    simpl; split; intros H; try discriminate; try reflexivity; try lia.
Qed.

Lemma write_slice_outcome at_line gds_write src size offset :
  write_slice at_line gds_write src size offset = Ok tt \/
  write_slice at_line gds_write src size offset
  = Throw (logic_error (at_line 266%nat +:+ "cuFile error writing to a file")).
Proof.
  unfold write_slice, CUDF_EXPECTS, CUDF_FAIL, throw, ret.
  destruct (negb _ && _); simpl; auto.
Qed.

(** The waiter of the write path only waits: it returns normally whatever
    the slice futures hold. *)
Lemma write_waiter_returns (slice_tasks : list (future unit)) :
  write_waiter slice_tasks = Ok tt.
Proof.
  unfold write_waiter. f_equal.
  destruct (fold_left _ slice_tasks tt). reflexivity.
Qed.

(** C5: a write of one byte whose backend call reports no byte written has a
    slice task that failed, and the composed future still resolves without
    error, because the waiter calls [wait], which does not rethrow, where the
    read path calls [get]; the future of no write ever holds a failure. *)
Theorem C5_write_future_never_fails :
  make_sliced_tasks (write_slice (fun _ => "cuDF failure: ") (fun _ _ _ => 0)) 0 1
  = [mk_future
       (Throw (logic_error "cuDF failure: cuFile error writing to a file"))] /\
  deferred_get (write_async (fun _ => "cuDF failure: ") (fun _ _ _ => 0) 0 1)
  = Ok tt /\
  deferred_get (write_async (fun _ => "cuDF failure: ") (fun _ _ _ => -1) 0 1)
  = Ok tt /\
  forall at_line gds_write offset size,
    deferred_get (write_async at_line gds_write offset size) = Ok tt.
Proof.
  split; [vm_compute; reflexivity|].
  split; [apply write_waiter_returns|].
  split; [apply write_waiter_returns|].
  intros. apply write_waiter_returns.
Qed.

(** ** cufile_config *)

Lemma append_assoc (a b c : string) : (a +:+ b) +:+ c = a +:+ (b +:+ c).
Proof.
  induction a as [|x a IH]; [reflexivity|].
  change (String x ((a +:+ b) +:+ c) = String x (a +:+ (b +:+ c))).
  now rewrite IH.
Qed.

Lemma append_nil_r (a : string) : a +:+ EmptyString = a.
Proof.
  induction a as [|x a IH]; [reflexivity|].
  change (String x (a +:+ EmptyString) = String x a).
  now rewrite IH.
Qed.

Lemma getlines_line (line text : string) :
  no_newline line = true ->
  getlines (line +:+ String newline text) = line :: getlines text.
Proof.
  induction line as [|c line IH]; simpl; intros H.
  - reflexivity.
  - apply andb_true_iff in H as [Hc Hl].
    apply negb_true_iff in Hc. rewrite Hc, (IH Hl). reflexivity.
Qed.

Lemma getlines_unlines (lines : list string) :
  Forall (fun l => no_newline l = true) lines ->
  getlines (unlines lines) = lines.
Proof.
  induction 1 as [|l ls Hl _ IH]; simpl; [reflexivity|].
  rewrite append_assoc.
  change (String newline EmptyString +:+ unlines ls)
    with (String newline (unlines ls)).
  rewrite (getlines_line _ _ Hl), IH. reflexivity.
Qed.

Lemma getlines_no_newline (content : string) :
  Forall (fun l => no_newline l = true) (getlines content).
Proof.
  induction content as [|c rest IH]; simpl; [constructor|].
  destruct (Ascii.eqb c newline) eqn:Hc.
  - constructor; [reflexivity | exact IH].
  - destruct (getlines rest) as [|l ls].
    + constructor; [simpl; now rewrite Hc | constructor].
    + inversion IH; subst. constructor; [simpl; now rewrite Hc | assumption].
Qed.

Lemma rewritten_no_newline m line :
  no_newline line = true -> no_newline (rewritten value_in_code m line) = true.
Proof.
  intros H. unfold rewritten. destruct (found tag line); [|exact H].
  destruct m; reflexivity.
Qed.

Section ConfigLoop.
Variable P : platform.
Hypothesis Hname : valid_env_name (json_path_env_var P) = true.

Lemma env_pointed_idem env : env_pointed P (env_pointed P env) = env_pointed P env.
Proof.
  unfold env_pointed at 2.
  destruct (env !! json_path_env_var P) eqn:E.
  - unfold env_pointed. now rewrite E.
  - unfold env_pointed. rewrite lookup_insert_eq, E. reflexivity.
Qed.

Lemma config_loop_run (this : cufile_config) (lines : list string) :
  forall (w : world) (acc : string),
    w_files w !! (cudf_config_path P) = Some acc ->
    exists w',
      config_loop P this (cudf_config_path P) lines w = (Ok tt, w') /\
      w_files w' !! (cudf_config_path P)
      = Some (acc +:+ unlines (map (rewritten value_in_code (mode_of P this))
                                 lines)) /\
      (forall p, p <> (cudf_config_path P) -> w_files w' !! p = w_files w !! p) /\
      w_env w'
      = match lines with [] => w_env w | _ => env_pointed P (w_env w) end /\
      rest_of_process w' = rest_of_process w.
Proof.
  induction lines as [|line rest IH]; intros w acc Hacc.
  - exists w. simpl. repeat split; try reflexivity.
    rewrite Hacc. f_equal. symmetry. apply append_nil_r.
  - set (text := rewritten value_in_code (mode_of P this) line
                   +:+ String newline EmptyString).
    set (w1 := set_files (insert (cudf_config_path P) (acc +:+ text)) w).
    set (w2 := set_env (env_pointed P) w1).
    assert (Hstep : forall k : unit -> M world unit,
      (let* _ :=
         if found tag line
         then ofstream_put (cudf_config_path P)
                (tag +:+ ": " +:+ compat_value P this +:+ ","
                   +:+ String newline EmptyString)
         else ofstream_put (cudf_config_path P) (line +:+ String newline EmptyString) in
       let* r := sys_setenv (json_path_env_var P) (cudf_config_path P) 0 in
       let* _ := CUDF_EXPECTS (at_line P) 76 (r =? 0)
         "Failed to set the cuFile config file environment variable." in
       k tt) w = k tt w2).
    { intros k.
      assert (Hput : (if found tag line
         then ofstream_put (cudf_config_path P)
                (tag +:+ ": " +:+ compat_value P this +:+ ","
                   +:+ String newline EmptyString)
         else ofstream_put (cudf_config_path P) (line +:+ String newline EmptyString)) w
         = (Ok tt, w1)).
      { unfold w1, text, rewritten, compat_value, value_in_code, is_required.
        destruct (found tag line); unfold ofstream_put, modify, set_files;
          simpl; rewrite Hacc; [|reflexivity].
        destruct (mode_of P this); simpl; rewrite ?append_assoc; reflexivity. }
      unfold bind at 1. rewrite Hput.
      unfold bind at 1. unfold sys_setenv. rewrite Hname. simpl.
      unfold w2, set_env, env_pointed. simpl.
      destruct (w_env w !! (json_path_env_var P)) eqn:E; simpl; reflexivity. }
    destruct (IH w2 (acc +:+ text)) as (w' & Hrun & Hfile & Hother & Henv & Hrest).
    { unfold w2, w1. simpl. apply lookup_insert_eq. }
    exists w'. split; [|split; [|split; [|split]]].
    + simpl. rewrite (Hstep (fun _ => config_loop P this (cudf_config_path P) rest)).
      exact Hrun.
    + rewrite Hfile. f_equal. simpl. unfold text.
      rewrite !append_assoc. reflexivity.
    + intros p Hp. rewrite (Hother p Hp). unfold w2, w1. simpl.
      now rewrite lookup_insert_ne.
    + rewrite Henv. unfold w2, w1. simpl.
      destruct rest; [reflexivity | apply env_pointed_idem].
    + rewrite Hrest. reflexivity.
Qed.
End ConfigLoop.

Lemma bind_run {S A B} (m : M S A) (k : A -> M S B) s a s' :
  m s = (Ok a, s') -> bind m k s = k a s'.
Proof. intros H. unfold bind. now rewrite H. Qed.

Lemma bind_throw {S A B} (m : M S A) (k : A -> M S B) s e s' :
  m s = (Throw e, s') -> bind m k s = (Throw e, s').
Proof. intros H. unfold bind. now rewrite H. Qed.

Lemma getenv_or_run name default_val w :
  getenv_or name default_val w
  = (Ok (match w_env w !! name with Some s => s | None => default_val end), w).
Proof. reflexivity. Qed.

(** What the constructor does when the policy enables cuFile. *)
Lemma cufile_config_ctor_enabled (P : platform) (w : world) :
  let this := mk_cufile_config (policy_in P w) in
  valid_env_name (json_path_env_var P) = true ->
  is_enabled P this = true ->
  config_file_path_in P w <> cudf_config_path P ->
  exists w',
    cufile_config_ctor P w = (Ok this, w') /\
    file_lines w' (cudf_config_path P)
    = map (rewritten value_in_code (mode_of P this))
        (file_lines w (config_file_path_in P w)) /\
    (forall p, p <> cudf_config_path P -> w_files w' !! p = w_files w !! p) /\
    w_env w'
    = match file_lines w (config_file_path_in P w) with
      | [] => w_env w
      | _ => env_pointed P (w_env w)
      end /\
    rest_of_process w' = rest_of_process w.
Proof.
  intros this Hname Hen Hne.
  set (w1 := set_files (insert (cudf_config_path P) EmptyString) w).
  destruct (config_loop_run P Hname this
              (file_lines w (config_file_path_in P w)) w1 EmptyString)
    as (w' & Hrun & Hfile & Hother & Henv & Hrest).
  { unfold w1. simpl. apply lookup_insert_eq. }
  exists w'. split; [|split; [|split; [|split]]].
  - unfold cufile_config_ctor.
    rewrite (bind_run _ _ _ _ _ (getenv_or_run _ _ w)).
    fold (policy_in P w). fold this. rewrite Hen.
    rewrite (bind_run _ _ _ _ _ (getenv_or_run _ _ w)).
    fold (config_file_path_in P w).
    rewrite (bind_run (ofstream_open _) _ w tt w1) by reflexivity.
    rewrite (bind_run (ifstream_lines _) _ w1
               (file_lines w (config_file_path_in P w)) w1).
    2:{ unfold ifstream_lines, gets, file_lines, w1. simpl.
        rewrite lookup_insert_ne by congruence. reflexivity. }
    fold (cudf_config_path P).
    rewrite (bind_run _ _ _ _ _ Hrun). reflexivity.
  - unfold file_lines at 1. rewrite Hfile.
    change (EmptyString +:+ ?x) with x.
    apply getlines_unlines.
    apply Forall_forall. intros l Hl. apply list_elem_of_In in Hl.
    apply in_map_iff in Hl as (l0 & <- & Hl0).
    apply rewritten_no_newline.
    unfold file_lines in Hl0.
    destruct (w_files w !! config_file_path_in P w); [|contradiction].
    pose proof (getlines_no_newline s) as Hall.
    rewrite Forall_forall in Hall. apply Hall.
    apply list_elem_of_In. exact Hl0.
  - intros p Hp. rewrite (Hother p Hp). unfold w1. simpl.
    now rewrite lookup_insert_ne.
  - exact Henv.
  - exact Hrest.
Qed.

(** Without a line to copy the loop body never runs, and neither does the
    [setenv] inside it. *)
Lemma cufile_config_ctor_no_line (P : platform) (w : world) :
  let this := mk_cufile_config (policy_in P w) in
  is_enabled P this = true ->
  w_files w !! config_file_path_in P w = None ->
  config_file_path_in P w <> cudf_config_path P ->
  exists w',
    cufile_config_ctor P w = (Ok this, w') /\ w_env w' = w_env w.
Proof.
  intros this Hen Hnone Hne.
  set (w1 := set_files (insert (cudf_config_path P) EmptyString) w).
  exists w1. split.
  - unfold cufile_config_ctor.
    rewrite (bind_run _ _ _ _ _ (getenv_or_run _ _ w)).
    fold (policy_in P w). fold this. rewrite Hen.
    rewrite (bind_run _ _ _ _ _ (getenv_or_run _ _ w)).
    fold (config_file_path_in P w).
    rewrite (bind_run (ofstream_open _) _ w tt w1) by reflexivity.
    rewrite (bind_run (ifstream_lines _) _ w1 [] w1).
    2:{ unfold ifstream_lines, gets, w1. simpl.
        rewrite lookup_insert_ne by congruence. rewrite Hnone. reflexivity. }
    reflexivity.
  - reflexivity.
Qed.

(** C2, as the code has it: with cuFile enabled the constructor copies the
    user's configuration file line by line into the private file; every line
    that contains the key ["allow_compat_mode"] becomes the key with the
    value [true] when the mode is required and [false] when it is optional,
    and every other line is copied as it is. *)
Theorem C2_private_copy_rewrites_compat_line (P : platform) (w : world) :
  let this := mk_cufile_config (policy_in P w) in
  valid_env_name (json_path_env_var P) = true ->
  is_enabled P this = true ->
  config_file_path_in P w <> cudf_config_path P ->
  exists w',
    cufile_config_ctor P w = (Ok this, w') /\
    file_lines w' (cudf_config_path P)
    = map (rewritten value_in_code (mode_of P this))
        (file_lines w (config_file_path_in P w)).
Proof.
  intros this Hname Hen Hne.
  destruct (cufile_config_ctor_enabled P w Hname Hen Hne)
    as (w' & Hrun & Hlines & _).
  exists w'. split; assumption.
Qed.

Lemma C2_private_copy_witness :
  exists w',
    cufile_config_ctor (example_platform true None None false mode_required)
      config_world
    = (Ok (mk_cufile_config "DEFAULT"), w') /\
    file_lines w' "/tmp/cudf_cufile_config/cufile.json"
    = map (rewritten value_in_code mode_required)
        (file_lines config_world "/etc/cufile.json").
Proof.
  apply (C2_private_copy_rewrites_compat_line
           (example_platform true None None false mode_required) config_world).
  - reflexivity.
  - reflexivity.
  - intros H. vm_compute in H. discriminate H.
Defined.

(** C2, as it is stated (optional gives [true], required gives [false]),
    fails: under the optional mode the line of the key is written with
    [false]. *)
Lemma C2_optional_writes_false :
  exists w',
    cufile_config_ctor (example_platform true None None false mode_optional)
      config_world
    = (Ok (mk_cufile_config "DEFAULT"), w') /\
    file_lines w' "/tmp/cudf_cufile_config/cufile.json"
    = ["{"; tag +:+ ": false,"; "}"] /\
    file_lines w' "/tmp/cudf_cufile_config/cufile.json"
    <> map (rewritten value_in_spec mode_optional)
         (file_lines config_world "/etc/cufile.json").
Proof.
  eexists. split; [vm_compute; reflexivity|].
  split; [vm_compute; reflexivity|].
  intros H. vm_compute in H. discriminate H.
Qed.

(** C7: with cuFile enabled, the constructor leaves the variable of the
    configuration path as it is when it is already set, sets it to the path
    of the private copy when it is not set and the rewrite copied at least
    one line, and changes no other variable.  (The [setenv] sits in the copy
    loop: with no line to copy the environment stays as it was.) *)
Theorem C7_config_path_variable_set_unless_present (P : platform) (w : world) :
  let this := mk_cufile_config (policy_in P w) in
  valid_env_name (json_path_env_var P) = true ->
  is_enabled P this = true ->
  config_file_path_in P w <> cudf_config_path P ->
  exists w',
    cufile_config_ctor P w = (Ok this, w') /\
    (forall v, w_env w !! json_path_env_var P = Some v ->
               w_env w' = w_env w) /\
    (w_env w !! json_path_env_var P = None ->
     file_lines w (config_file_path_in P w) <> [] ->
     w_env w' !! json_path_env_var P = Some (cudf_config_path P)) /\
    (forall k, k <> json_path_env_var P -> w_env w' !! k = w_env w !! k) /\
    (file_lines w (config_file_path_in P w) = [] -> w_env w' = w_env w).
Proof.
  intros this Hname Hen Hne.
  destruct (cufile_config_ctor_enabled P w Hname Hen Hne)
    as (w' & Hrun & _ & _ & Henv & _).
  exists w'. split; [exact Hrun|].
  rewrite Henv. unfold env_pointed.
  split; [|split; [|split]].
  - intros v Hv. rewrite Hv. now destruct (file_lines _ _).
  - intros Hnone Hlines. rewrite Hnone.
    destruct (file_lines _ _); [congruence|]. apply lookup_insert_eq.
  - intros k Hk. destruct (file_lines _ _); [reflexivity|].
    destruct (w_env w !! json_path_env_var P); [reflexivity|].
    now rewrite lookup_insert_ne.
  - intros ->. reflexivity.
Qed.

Lemma C7_config_path_variable_witness :
  exists w',
    cufile_config_ctor (example_platform true None None false mode_optional)
      config_world
    = (Ok (mk_cufile_config "DEFAULT"), w') /\
    w_env w' !! "CUFILE_ENV_PATH_JSON"
    = Some "/tmp/cudf_cufile_config/cufile.json".
Proof.
  destruct (C7_config_path_variable_set_unless_present
              (example_platform true None None false mode_optional)
              config_world) as (w' & Hrun & _ & Hset & _ & _).
  - reflexivity.
  - reflexivity.
  - intros H. vm_compute in H. discriminate H.
  - exists w'. split; [exact Hrun|].
    apply Hset; [reflexivity|].
    intros H. vm_compute in H. discriminate H.
Defined.

(** ** cufile_shim *)

Lemma resolve_run P line name set this w :
  resolve P line name set (this, w)
  = (match dlsym P (cf_lib this) name with
     | Some _ => Ok tt
     | None => Throw (logic_error
                 (at_line P line +:+ "could not find cuFile " +:+ name
                    +:+ " symbol"))
     end,
     (set (dlsym P (cf_lib this) name) this, w)).
Proof.
  unfold resolve, bind, this_get, this_set, gets, modify; simpl.
  destruct (dlsym P (cf_lib this) name); reflexivity.
Qed.

(** The constructor never throws, and it keeps what it resolved before the
    step that failed. *)
Lemma cufile_shim_ctor_run P w :
  exists s w',
    cufile_shim_ctor P w = (Ok s, w') /\
    cf_lib s = dlopen P "libcufile.so" /\
    (driver_close s = None <->
     dlsym P (dlopen P "libcufile.so") "cuFileDriverOpen" = None \/
     dlsym P (dlopen P "libcufile.so") "cuFileDriverClose" = None) /\
    except_log w' = except_log w.
Proof.
  unfold cufile_shim_ctor, cufile_shim_try.
  unfold bind at 1. unfold emit at 1, modify at 1. simpl.
  unfold bind at 1. unfold this_set at 1, modify at 1. simpl.
  set (lib := dlopen P "libcufile.so").
  set (w0 := log_event (ev_dlopen "libcufile.so") w).
  unfold bind at 1. rewrite resolve_run. simpl.
  destruct (dlsym P lib "cuFileDriverOpen") as [f_open|] eqn:E1;
    [|do 2 eexists; split; [reflexivity|]; simpl; intuition congruence].
  unfold bind at 1. rewrite resolve_run. simpl.
  destruct (dlsym P lib "cuFileDriverClose") as [f_close|] eqn:E2;
    [|do 2 eexists; split; [reflexivity|]; simpl; intuition congruence].
  unfold bind at 1. rewrite resolve_run. simpl.
  destruct (dlsym P lib "cuFileHandleRegister") as [f_reg|] eqn:E3;
    [|do 2 eexists; split; [reflexivity|]; simpl; intuition congruence].
  unfold bind at 1. rewrite resolve_run. simpl.
  destruct (dlsym P lib "cuFileHandleDeregister") as [f_dereg|] eqn:E4;
    [|do 2 eexists; split; [reflexivity|]; simpl; intuition congruence].
  unfold bind at 1. rewrite resolve_run. simpl.
  destruct (dlsym P lib "cuFileRead") as [f_read|] eqn:E5;
    [|do 2 eexists; split; [reflexivity|]; simpl; intuition congruence].
  unfold bind at 1. rewrite resolve_run. simpl.
  destruct (dlsym P lib "cuFileWrite") as [f_write|] eqn:E6;
    [|do 2 eexists; split; [reflexivity|]; simpl; intuition congruence].
  unfold bind, this_get, gets, emit, modify, CUDF_EXPECTS, CUDF_FAIL, throw, ret.
  simpl.
  destruct (call_driver_open P (Some f_open));
    do 2 eexists; (split; [reflexivity|]); simpl; intuition congruence.
Qed.


(** The destructor on a null driver-close pointer: the process dies in the
    call, the library is not unloaded. *)
Lemma cufile_shim_dtor_null (s : cufile_shim) (w : world) :
  driver_close s = None ->
  cufile_shim_dtor s w = (crashed, log_event (ev_driver_close None) w).
Proof. intros H. unfold cufile_shim_dtor. rewrite H. reflexivity. Qed.

(** The shim of a process that cannot load the library has a null
    driver-close pointer, and its destructor dies in the call through it. *)
Example cufile_shim_dtor_without_library :
  exists s w',
    cufile_shim_ctor (example_platform true None None false mode_optional)
      empty_world = (Ok s, w') /\
    driver_close s = None /\
    cufile_shim_dtor s w'
    = (crashed, log_event (ev_driver_close None) w').
Proof. do 2 eexists. split; [vm_compute; reflexivity|]. split; reflexivity. Qed.




(** A call of [instance()] on an invalid singleton. *)
Lemma cufile_shim_instance_invalid P w s e :
  w_shim w = Some s ->
  init_error s = Some e ->
  cufile_shim_instance P w
  = (Throw (logic_error (at_line P 149 +:+ what e)), w).
Proof.
  intros Hs He. unfold cufile_shim_instance, bind. rewrite Hs.
  unfold is_valid, init_error_what. rewrite He. reflexivity.
Qed.

Lemma cufile_shim_instance_first P w s w1 :
  w_shim w = None ->
  cufile_shim_ctor P w = (Ok s, w1) ->
  cufile_shim_instance P w
  = (match init_error s with
     | Some e => Throw (logic_error (at_line P 149 +:+ what e))
     | None => Ok s
     end, set_shim (Some s) w1).
Proof.
  intros Hs Hctor. unfold cufile_shim_instance, bind. rewrite Hs, Hctor.
  unfold is_valid, init_error_what. destruct (init_error s); reflexivity.
Qed.

Lemma call_n_fixed {A} (m : M world A) (r : result A) (w : world) :
  m w = (r, w) -> forall n, call_n m n w = (repeat r n, w).
Proof.
  intros H n. induction n as [|n IH]; simpl; [reflexivity|].
  rewrite H, IH. reflexivity.
Qed.

(** C6: when the one construction of the shim captured an error, the call
    of [instance()] that made it and every later call throw an error whose
    message ends with the message captured, and the later calls change
    nothing in the process: the singleton stays as it is and no call to the
    loader is made. *)
Theorem C6_invalid_shim_is_permanent
    (P : platform) (w w1 : world) (s : cufile_shim) (e : exn) :
  w_shim w = None ->
  cufile_shim_ctor P w = (Ok s, w1) ->
  init_error s = Some e ->
  let thrown := logic_error (at_line P 149 +:+ what e) in
  let after := set_shim (Some s) w1 in
  cufile_shim_instance P w = (Throw thrown, after) /\
  forall n,
    call_n (cufile_shim_instance P) n after = (repeat (Throw thrown) n, after).
Proof.
  intros Hnone Hctor He thrown after. split.
  - rewrite (cufile_shim_instance_first P w s w1 Hnone Hctor), He. reflexivity.
  - apply call_n_fixed.
    apply (cufile_shim_instance_invalid P after s e); [reflexivity | exact He].
Qed.

Lemma C6_invalid_shim_witness :
  exists after,
    cufile_shim_instance (example_platform true None None false mode_optional)
      empty_world
    = (Throw (logic_error
         ("cuDF failure: "
            +:+ "cuDF failure: could not find cuFile cuFileDriverOpen symbol")),
       after) /\
    call_n (cufile_shim_instance
              (example_platform true None None false mode_optional)) 3 after
    = (repeat (Throw (logic_error
         ("cuDF failure: "
            +:+ "cuDF failure: could not find cuFile cuFileDriverOpen symbol")))
         3,
       after).
Proof.
  pose (P0 := example_platform true None None false mode_optional).
  destruct (C6_invalid_shim_is_permanent P0 empty_world
              (snd (cufile_shim_ctor P0 empty_world))
              (set_init_error
                 (Some (logic_error
                   "cuDF failure: could not find cuFile cuFileDriverOpen symbol"))
                 (set_driver_open None (set_cf_lib None shim_default)))
              (logic_error
                 "cuDF failure: could not find cuFile cuFileDriverOpen symbol"))
    as [H1 H2]; [reflexivity | vm_compute; reflexivity | reflexivity |].
  eexists. split; [exact H1 | exact (H2 3%nat)].
Defined.

(** ** The factories *)

Section Keeps.
Context {B : Type} (part : world -> B).

Lemma keeps_ret {A} (a : A) : keeps part (ret a).
Proof. intros w. reflexivity. Qed.

Lemma keeps_throw {A} (e : exn) : keeps part (@throw world A e).
Proof. intros w. reflexivity. Qed.

Lemma keeps_gets {A} (f : world -> A) : keeps part (gets f).
Proof. intros w. reflexivity. Qed.

Lemma keeps_modify (f : world -> world) :
  (forall w, part (f w) = part w) -> keeps part (modify f).
Proof. intros H w. apply H. Qed.

Lemma keeps_bind {A C} (m : M world A) (k : A -> M world C) :
  keeps part m -> (forall a, keeps part (k a)) -> keeps part (bind m k).
Proof.
  intros Hm Hk w. unfold bind. specialize (Hm w).
  destruct (m w) as [[a|e] w']; simpl in *.
  - rewrite Hk. exact Hm.
  - exact Hm.
Qed.

Lemma keeps_try_catch {A} (m : M world A) (h : exn -> M world A) :
  keeps part m -> (forall e, keeps part (h e)) ->
  keeps part (try_catch m h).
Proof.
  intros Hm Hh w. unfold try_catch. specialize (Hm w).
  destruct (m w) as [[a|e] w']; simpl in *.
  - exact Hm.
  - rewrite Hh. exact Hm.
Qed.

Lemma keeps_EXPECTS at_line line cond reason :
  keeps part (@CUDF_EXPECTS at_line world line cond reason).
Proof. intros w. destruct cond; reflexivity. Qed.
End Keeps.

(** The constructor of the policy touches the environment and the files
    only. *)
Lemma config_loop_keeps P this path lines :
  keeps rest_of_process (config_loop P this path lines).
Proof.
  induction lines as [|line rest IH]; simpl.
  - apply keeps_ret.
  - apply keeps_bind.
    + destruct (found tag line); apply keeps_modify; reflexivity.
    + intros _. apply keeps_bind.
      * intros w. unfold sys_setenv.
        destruct (negb _); [reflexivity|].
        destruct (w_env w !! _); [destruct (0 =? 0)|]; reflexivity.
      * intros r. apply keeps_bind; [apply keeps_EXPECTS|].
        intros _. exact IH.
Qed.

Lemma cufile_config_ctor_keeps P :
  keeps rest_of_process (cufile_config_ctor P).
Proof.
  unfold cufile_config_ctor.
  apply keeps_bind; [intros w; reflexivity|].
  intros policy. destruct (is_enabled P _); [|apply keeps_ret].
  apply keeps_bind; [intros w; reflexivity|]. intros path.
  apply keeps_bind; [apply keeps_modify; reflexivity|]. intros _.
  apply keeps_bind; [apply keeps_gets|]. intros lines.
  apply keeps_bind; [apply config_loop_keeps|]. intros _.
  apply keeps_ret.
Qed.

Lemma cufile_config_instance_ok P w cfg w1 :
  cufile_config_instance P w = (Ok cfg, w1) ->
  w_config w1 = Some cfg /\ w_shim w1 = w_shim w /\ w_log w1 = w_log w.
Proof.
  unfold cufile_config_instance.
  destruct (w_config w) as [c|] eqn:Hc.
  - intros [= <- <-]. auto.
  - pose proof (cufile_config_ctor_keeps P w) as Hk.
    destruct (cufile_config_ctor P w) as [[c|e] w']; [|discriminate].
    intros [= <- <-]. simpl in *.
    unfold rest_of_process in Hk. injection Hk as _ _ _ Hshim Hlog.
    auto.
Qed.

Lemma cufile_config_instance_again P w cfg :
  w_config w = Some cfg -> cufile_config_instance P w = (Ok cfg, w).
Proof. intros H. unfold cufile_config_instance. now rewrite H. Qed.

(** The engines leave the policy singleton alone. *)
Lemma cufile_shim_instance_keeps_config P :
  keeps w_config (cufile_shim_instance P).
Proof.
  unfold cufile_shim_instance. apply keeps_bind.
  - intros w. destruct (w_shim w); [reflexivity|].
    destruct (cufile_shim_ctor_run P w) as (s & w' & Hrun & _ & _ & Hrest).
    rewrite Hrun. simpl. unfold except_log in Hrest. congruence.
  - intros s. destruct (negb _); [apply keeps_throw | apply keeps_ret].
Qed.

Lemma file_wrapper_ctor_keeps_config P filepath flags mode :
  keeps w_config (file_wrapper_ctor P filepath flags mode).
Proof.
  unfold file_wrapper_ctor. apply keeps_bind.
  - intros w. unfold sys_open. destruct (fs_open _ _ _ _); reflexivity.
  - intros d. apply keeps_bind.
    + unfold get_file_size. apply keeps_bind.
      * intros w. unfold sys_fstat. destruct (d <? 0); [reflexivity|].
        destruct (w_fds w !! d); [|reflexivity].
        destruct (fs_fstat P _); reflexivity.
      * intros r. apply keeps_bind; [apply keeps_EXPECTS|].
        intros _. apply keeps_ret.
    + intros sz. apply keeps_bind; [apply keeps_EXPECTS|].
      intros _. apply keeps_ret.
Qed.

Lemma cufile_registered_file_ctor_keeps_config P shim filepath flags mode :
  keeps w_config (cufile_registered_file_ctor P shim filepath flags mode).
Proof.
  unfold cufile_registered_file_ctor.
  apply keeps_bind; [apply file_wrapper_ctor_keeps_config|]. intros f.
  apply keeps_bind; [|intros h; apply keeps_ret].
  apply keeps_try_catch.
  - unfold register_handle. apply keeps_bind; [apply keeps_modify; reflexivity|].
    intros _. apply keeps_bind; [apply keeps_EXPECTS|]. intros _.
    apply keeps_ret.
  - intros e. apply keeps_bind; [apply keeps_modify; reflexivity|].
    intros _. apply keeps_throw.
Qed.

Lemma cufile_input_impl_ctor_keeps_config P filepath :
  keeps w_config (cufile_input_impl_ctor P filepath).
Proof.
  unfold cufile_input_impl_ctor.
  apply keeps_bind; [apply cufile_shim_instance_keeps_config|]. intros s.
  apply keeps_bind; [apply cufile_registered_file_ctor_keeps_config|].
  intros f. apply keeps_ret.
Qed.

Lemma cufile_output_impl_ctor_keeps_config P filepath :
  keeps w_config (cufile_output_impl_ctor P filepath).
Proof.
  unfold cufile_output_impl_ctor.
  apply keeps_bind; [apply cufile_shim_instance_keeps_config|]. intros s.
  apply keeps_bind; [apply cufile_registered_file_ctor_keeps_config|].
  intros f. apply keeps_ret.
Qed.

(** What a factory does, by the policy and by the outcome of the
    constructor of its engine. *)
Section Factory.
Variable P : platform.
Variables (w w1 : world) (cfg : cufile_config).
Hypothesis Hfound : CUFILE_FOUND P = true.
Hypothesis Hconfig : cufile_config_instance P w = (Ok cfg, w1).

Lemma make_cufile_input_disabled filepath :
  is_enabled P cfg = false ->
  make_cufile_input P filepath w = (Ok None, w1).
Proof.
  intros Hen. unfold make_cufile_input. rewrite Hfound.
  rewrite (bind_run _ _ _ _ _ Hconfig), Hen. reflexivity.
Qed.

Lemma make_cufile_output_disabled filepath :
  is_enabled P cfg = false ->
  make_cufile_output P filepath w = (Ok None, w1).
Proof.
  intros Hen. unfold make_cufile_output. rewrite Hfound.
  rewrite (bind_run _ _ _ _ _ Hconfig), Hen. reflexivity.
Qed.

Lemma make_cufile_input_throws filepath ex w2 :
  is_enabled P cfg = true ->
  cufile_input_impl_ctor P filepath w1 = (Throw ex, w2) ->
  make_cufile_input P filepath w
  = (if is_required P cfg then Throw ex else Ok None, w2).
Proof.
  intros Hen Hctor. unfold make_cufile_input. rewrite Hfound.
  rewrite (bind_run _ _ _ _ _ Hconfig), Hen.
  unfold try_catch. rewrite (bind_throw _ _ _ _ _ Hctor).
  assert (Hc2 : w_config w2 = Some cfg).
  { pose proof (cufile_input_impl_ctor_keeps_config P filepath w1) as Hk.
    rewrite Hctor in Hk. simpl in Hk. rewrite Hk.
    apply (cufile_config_instance_ok P w cfg w1 Hconfig). }
  rewrite (bind_run _ _ _ _ _ (cufile_config_instance_again P w2 cfg Hc2)).
  destruct (is_required P cfg); reflexivity.
Qed.

Lemma make_cufile_output_throws filepath ex w2 :
  is_enabled P cfg = true ->
  cufile_output_impl_ctor P filepath w1 = (Throw ex, w2) ->
  make_cufile_output P filepath w
  = (if is_required P cfg then Throw ex else Ok None, w2).
Proof.
  intros Hen Hctor. unfold make_cufile_output. rewrite Hfound.
  rewrite (bind_run _ _ _ _ _ Hconfig), Hen.
  unfold try_catch. rewrite (bind_throw _ _ _ _ _ Hctor).
  assert (Hc2 : w_config w2 = Some cfg).
  { pose proof (cufile_output_impl_ctor_keeps_config P filepath w1) as Hk.
    rewrite Hctor in Hk. simpl in Hk. rewrite Hk.
    apply (cufile_config_instance_ok P w cfg w1 Hconfig). }
  rewrite (bind_run _ _ _ _ _ (cufile_config_instance_again P w2 cfg Hc2)).
  destruct (is_required P cfg); reflexivity.
Qed.
End Factory.

(** C3: in a build with cuFile, with the policy [cfg] of the process: when
    it is not enabled both factories return empty, the shim singleton is as
    before and no call was logged; when it is enabled and the constructor of
    the engine throws, the factory rethrows under the required mode and
    returns empty otherwise; an invalid capability ([instance()] throws)
    makes the constructor throw, so the factory raises under the required
    mode and returns empty under the optional one. *)
Theorem C3_factory_follows_policy
    (P : platform) (filepath : string) (w w1 : world) (cfg : cufile_config) :
  CUFILE_FOUND P = true ->
  cufile_config_instance P w = (Ok cfg, w1) ->
  (is_enabled P cfg = false ->
     make_cufile_input P filepath w = (Ok None, w1) /\
     make_cufile_output P filepath w = (Ok None, w1) /\
     w_shim w1 = w_shim w /\ w_log w1 = w_log w) /\
  (is_enabled P cfg = true ->
     (forall ex w2,
        cufile_input_impl_ctor P filepath w1 = (Throw ex, w2) ->
        make_cufile_input P filepath w
        = (if is_required P cfg then Throw ex else Ok None, w2)) /\
     (forall ex w2,
        cufile_output_impl_ctor P filepath w1 = (Throw ex, w2) ->
        make_cufile_output P filepath w
        = (if is_required P cfg then Throw ex else Ok None, w2)) /\
     (forall ex w2,
        cufile_shim_instance P w1 = (Throw ex, w2) ->
        make_cufile_input P filepath w
        = (if is_required P cfg then Throw ex else Ok None, w2) /\
        make_cufile_output P filepath w
        = (if is_required P cfg then Throw ex else Ok None, w2))).
Proof.
  intros Hfound Hconfig. split.
  - intros Hen.
    destruct (cufile_config_instance_ok P w cfg w1 Hconfig) as (_ & Hs & Hl).
    repeat split; try assumption.
    + now apply (make_cufile_input_disabled P w w1 cfg Hfound Hconfig).
    + now apply (make_cufile_output_disabled P w w1 cfg Hfound Hconfig).
  - intros Hen. split; [|split].
    + intros ex w2.
      now apply (make_cufile_input_throws P w w1 cfg Hfound Hconfig).
    + intros ex w2.
      now apply (make_cufile_output_throws P w w1 cfg Hfound Hconfig).
    + intros ex w2 Hshim. split.
      * apply (make_cufile_input_throws P w w1 cfg Hfound Hconfig);
          [assumption|].
        unfold cufile_input_impl_ctor. now apply bind_throw.
      * apply (make_cufile_output_throws P w w1 cfg Hfound Hconfig);
          [assumption|].
        unfold cufile_output_impl_ctor. now apply bind_throw.
Qed.

Lemma C3_factory_follows_policy_witness :
  fst (make_cufile_input (example_platform true None None false mode_required)
         "/data/in.bin" empty_world)
  = Throw (logic_error
      ("cuDF failure: "
         +:+ "cuDF failure: could not find cuFile cuFileDriverOpen symbol")) /\
  fst (make_cufile_output (example_platform true None None false mode_optional)
         "/data/out.bin" empty_world)
  = Ok None.
Proof.
  split.
  - pose (P0 := example_platform true None None false mode_required).
    destruct (C3_factory_follows_policy P0 "/data/in.bin" empty_world
                (snd (cufile_config_instance P0 empty_world))
                (mk_cufile_config "DEFAULT") eq_refl eq_refl) as [_ Hen].
    destruct (Hen eq_refl) as (_ & _ & Hinv).
    destruct (Hinv
      (logic_error
         ("cuDF failure: "
            +:+ "cuDF failure: could not find cuFile cuFileDriverOpen symbol"))
      (snd (cufile_shim_instance P0
              (snd (cufile_config_instance P0 empty_world)))))
      as [Hin _]; [vm_compute; reflexivity|].
    fold P0. rewrite Hin. reflexivity.
  - pose (P0 := example_platform true None None false mode_optional).
    destruct (C3_factory_follows_policy P0 "/data/out.bin" empty_world
                (snd (cufile_config_instance P0 empty_world))
                (mk_cufile_config "DEFAULT") eq_refl eq_refl) as [_ Hen].
    destruct (Hen eq_refl) as (_ & _ & Hinv).
    destruct (Hinv
      (logic_error
         ("cuDF failure: "
            +:+ "cuDF failure: could not find cuFile cuFileDriverOpen symbol"))
      (snd (cufile_shim_instance P0
              (snd (cufile_config_instance P0 empty_world)))))
      as [_ Hout]; [vm_compute; reflexivity|].
    fold P0. rewrite Hout. reflexivity.
Defined.

(** * Further properties of the code *)

(** ** Slicing and the read path *)

Lemma n_slices_of_ceil (size : Z) :
  0 <= size -> n_slices_of size = (size + 4194303) / 4194304.
Proof.
  intros Hs. unfold n_slices_of, div_rounding_up_safe.
  change max_slice_bytes with 4194304.
  pose proof (Z.div_mod size 4194304 ltac:(lia)) as Hdm.
  pose proof (Z.mod_pos_bound size 4194304 ltac:(lia)) as Hm.
  destruct (Z.eqb_spec (size mod 4194304) 0) as [E|E].
  - apply (Z.div_unique _ _ _ 4194303); lia.
  - apply (Z.div_unique _ _ _ (size mod 4194304 - 1)); lia.
Qed.

Lemma slices_of_nonempty (offset size : Z) :
  0 <= size < 2 ^ 64 ->
  size mod max_slice_bytes <> 0 ->
  Forall (fun s => 0 < slice_size s) (slices_of offset size).
Proof.
  intros Hs Hrem. rewrite (slices_of_closed _ _ Hs).
  apply Forall_forall. intros s Hin. apply list_elem_of_In in Hin.
  apply in_map_iff in Hin as (i & <- & _).
  unfold slice_at; cbn [slice_size].
  pose proof (Z.mod_pos_bound size max_slice_bytes ltac:(reflexivity)).
  destruct (_ =? _); [lia | reflexivity].
Qed.

(** X1: every slice of a transfer has between 0 and 4 MiB bytes, and the
    slice number [i] starts [i] times 4 MiB into the buffer and into the
    range of the file (the file offset taken modulo 2^64). *)
Theorem slices_are_bounded_and_consecutive
    (offset size : Z) (i : nat) (s : slice) :
  0 <= size < 2 ^ 64 ->
  slices_of offset size !! i = Some s ->
  0 <= slice_size s <= 4194304 /\
  slice_ptr s = Z.of_nat i * 4194304 /\
  slice_file_offset s = (offset + Z.of_nat i * 4194304) mod 2 ^ 64.
Proof. intros Hs Hi. exact (slices_of_bounded offset size i s Hs Hi). Qed.

Lemma slices_are_bounded_witness :
  0 <= slice_size (mk_slice 8388608 2097152 8388708) <= 4194304 /\
  slice_ptr (mk_slice 8388608 2097152 8388708) = Z.of_nat 2 * 4194304 /\
  slice_file_offset (mk_slice 8388608 2097152 8388708)
  = (100 + Z.of_nat 2 * 4194304) mod 2 ^ 64.
Proof.
  apply (slices_are_bounded_and_consecutive 100 10485760 2).
  - lia.
  - vm_compute. reflexivity.
Defined.

(** X2: a transfer whose size is not a multiple of 4 MiB is cut into
    ceil(size / 4 MiB) slices, none of them empty, whose sizes add up to the
    size of the transfer. *)
Theorem slices_cover_the_transfer (offset size : Z) :
  0 <= size < 2 ^ 64 ->
  size mod 4194304 <> 0 ->
  Z.of_nat (length (slices_of offset size)) = (size + 4194303) / 4194304 /\
  Forall (fun s => 0 < slice_size s) (slices_of offset size) /\
  total_size (slices_of offset size) = size.
Proof.
  intros Hs Hrem. split; [|split].
  - rewrite (slices_of_length _ _ Hs), <- n_slices_of_ceil by lia.
    destruct (n_slices_facts size Hs) as (Hn & _). lia.
  - apply (slices_of_nonempty offset size Hs Hrem).
  - rewrite (slices_of_total _ _ Hs).
    change max_slice_bytes with 4194304.
    apply Z.eqb_neq in Hrem. rewrite Hrem, andb_false_r. reflexivity.
Qed.

Lemma slices_cover_the_transfer_witness :
  Z.of_nat (length (slices_of 0 10485761)) = (10485761 + 4194303) / 4194304 /\
  Forall (fun s => 0 < slice_size s) (slices_of 0 10485761) /\
  total_size (slices_of 0 10485761) = 10485761.
Proof.
  apply (slices_cover_the_transfer 0 10485761).
  - lia.
  - vm_compute. discriminate.
Defined.

Lemma wrap_int_add_l (a b : Z) : wrap_int (wrap_int a + b) = wrap_int (a + b).
Proof.
  unfold wrap_int. f_equal.
  replace ((a + 2 ^ 31) mod 2 ^ 32 - 2 ^ 31 + b + 2 ^ 31)
    with ((a + 2 ^ 31) mod 2 ^ 32 + b) by lia.
  rewrite Z.add_mod_idemp_l by lia. f_equal. lia.
Qed.

Lemma accumulate_thrown (e : exn) (tasks : list (future Z)) :
  fold_left accumulate_step tasks (Throw e) = Throw e.
Proof. induction tasks as [|t tasks IH]; [reflexivity | exact IH]. Qed.

(** The waiter on any list of slices: the error of the read call when a
    slice reported -1, else the sum of the reports kept in an [int]. *)
Lemma accumulate_reports at_line gds_read (l : list slice) :
  forall acc,
    fold_left accumulate_step (map (task_of (read_slice at_line gds_read)) l)
      (Ok (wrap_int acc))
    = if existsb (fun s => reported gds_read s =? -1) l
      then Throw (logic_error
                    (at_line 220%nat +:+ "cuFile error reading from a file"))
      else Ok (wrap_int (acc + total_reported gds_read l)).
Proof.
  induction l as [|s l IH]; intros acc.
  - unfold total_reported; simpl. now rewrite Z.add_0_r.
  - cbn [map fold_left existsb].
    unfold accumulate_step at 2, task_of at 2.
    cbn [future_get pool_submit shared_state].
    fold (reported gds_read s).
    destruct (Z.eqb_spec (reported gds_read s) (-1)) as [E|E].
    + unfold reported in E. rewrite (read_slice_error _ _ _ _ _ E).
      cbn [orb]. apply accumulate_thrown.
    + unfold reported in E. rewrite (read_slice_ok _ _ _ _ _ E).
      fold (reported gds_read s). cbn [orb].
      rewrite wrap_int_add_l, IH.
      replace (total_reported gds_read (s :: l))
        with (reported gds_read s + total_reported gds_read l) by reflexivity.
      now rewrite Z.add_assoc.
Qed.

Lemma read_outcome at_line gds_read (offset size : Z) :
  read at_line gds_read offset size
  = if existsb (fun s => reported gds_read s =? -1) (slices_of offset size)
    then Throw (logic_error
                  (at_line 220%nat +:+ "cuFile error reading from a file"))
    else Ok (wrap_size_t
               (wrap_int (total_reported gds_read (slices_of offset size)))).
Proof.
  unfold read, deferred_get, read_async, read_waiter.
  rewrite make_sliced_tasks_map.
  change (Ok 0) with (@Ok Z (wrap_int 0)).
  rewrite accumulate_reports.
  destruct (existsb _ _); reflexivity.
Qed.

(** X3: when no slice reports -1 and the reports of the slices add up to a
    number from 0 to 2^31 - 1, the read returns that sum: the bytes the
    backend transferred, also when slices were read short. *)
Theorem read_returns_the_sum_of_the_reports
    (at_line : nat -> string) (gds_read : Z -> Z -> Z -> Z) (offset size : Z) :
  (forall s, In s (slices_of offset size) -> reported gds_read s <> -1) ->
  0 <= total_reported gds_read (slices_of offset size) < 2 ^ 31 ->
  read at_line gds_read offset size
  = Ok (total_reported gds_read (slices_of offset size)).
Proof.
  intros Hok Hsum. rewrite read_outcome.
  assert (E : existsb (fun s => reported gds_read s =? -1)
                (slices_of offset size) = false).
  { apply not_true_is_false. intros H. apply existsb_exists in H as (s & Hin & Hs).
    apply Z.eqb_eq in Hs. exact (Hok s Hin Hs). }
  rewrite E, wrap_int_small by lia.
  unfold wrap_size_t. rewrite Z.mod_small; [reflexivity | lia].
Qed.

Lemma read_returns_the_sum_witness :
  read (fun _ => EmptyString) (fun _ size _ => size / 2) 0 10485760
  = Ok (total_reported (fun _ size _ => size / 2) (slices_of 0 10485760)).
Proof.
  apply read_returns_the_sum_of_the_reports.
  - intros s Hin. vm_compute in Hin.
    destruct Hin as [<-|[<-|[<-|[]]]]; vm_compute; discriminate.
  - vm_compute. split; [discriminate | reflexivity].
Defined.

(** X4: a read throws exactly when the backend reports -1 for one of its
    slices, and then with the error of the read call; any other report,
    negative ones too, counts as a number of bytes. *)
Theorem read_throws_iff_a_slice_reports_minus_one
    (at_line : nat -> string) (gds_read : Z -> Z -> Z -> Z) (offset size : Z) :
  ((exists s, In s (slices_of offset size) /\ reported gds_read s = -1) <->
   read at_line gds_read offset size
   = Throw (logic_error
              (at_line 220%nat +:+ "cuFile error reading from a file"))) /\
  ((forall s, In s (slices_of offset size) -> reported gds_read s <> -1) <->
   exists n, read at_line gds_read offset size = Ok n).
Proof.
  rewrite read_outcome.
  destruct (existsb _ _) eqn:E.
  - apply existsb_exists in E as (s & Hin & Hs). apply Z.eqb_eq in Hs.
    split; split.
    + reflexivity.
    + intros _. exists s. auto.
    + intros H. exfalso. exact (H s Hin Hs).
    + intros [n Hn]. discriminate Hn.
  - assert (Hnone : forall s, In s (slices_of offset size) ->
                      reported gds_read s <> -1).
    { intros s Hin Hs. apply not_true_iff_false in E. apply E.
      apply existsb_exists. exists s. split; [exact Hin|].
      now apply Z.eqb_eq. }
    split; split.
    + intros (s & Hin & Hs). exfalso. exact (Hnone s Hin Hs).
    + discriminate.
    + intros _. eexists. reflexivity.
    + intros _. exact Hnone.
Qed.

(** ** The write path *)

(** X5: the task of a write slice of up to 2^63 - 1 bytes returns normally
    exactly when the backend reports the size of the slice as written; a
    short write, like an error, makes the task throw. *)
Theorem write_slice_succeeds_iff_written_in_full
    (at_line : nat -> string) (gds_write : Z -> Z -> Z -> Z)
    (src size offset : Z) :
  0 <= size < 2 ^ 63 ->
  (gds_write src size offset = size ->
   write_slice at_line gds_write src size offset = Ok tt) /\
  (gds_write src size offset <> size ->
   write_slice at_line gds_write src size offset
   = Throw (logic_error
              (at_line 266%nat +:+ "cuFile error writing to a file"))).
Proof.
  intros Hsize.
  pose proof (write_slice_ok_iff at_line gds_write src size offset Hsize) as Hiff.
  split.
  - apply Hiff.
  - intros Hne.
    destruct (write_slice_outcome at_line gds_write src size offset) as [H|H];
      [|exact H].
    apply Hiff in H. contradiction.
Qed.

Lemma write_slice_succeeds_iff_witness :
  write_slice (fun _ => EmptyString) (fun _ size _ => size - 1) 0 4194304 0
  = Throw (logic_error
             (EmptyString +:+ "cuFile error writing to a file")).
Proof.
  apply (write_slice_succeeds_iff_written_in_full
           (fun _ => EmptyString) (fun _ size _ => size - 1) 0 4194304 0).
  - lia.
  - lia.
Defined.

(** ** file_wrapper *)

(** X6: the constructor of [file_wrapper] returns an object exactly when
    [open] and [fstat] both succeed; the object then holds the descriptor
    [open] gave, which is open on the file, and the size [fstat] reported
    taken modulo 2^64. *)
Theorem file_wrapper_constructed_iff_open_and_fstat
    (P : platform) (filepath : string) (flags : Z) (mode : option Z)
    (w : world) :
  ((exists f w', file_wrapper_ctor P filepath flags mode w = (Ok f, w')) <->
   fs_open P filepath flags mode = true /\ fs_fstat P filepath <> None) /\
  forall f w',
    file_wrapper_ctor P filepath flags mode w = (Ok f, w') ->
    fd f = Z.of_nat (w_next_fd w) /\
    w_fds w' !! fd f = Some filepath /\
    Some (_size f) = wrap_size_t <$> fs_fstat P filepath.
Proof.
  unfold file_wrapper_ctor, bind, sys_open.
  destruct (fs_open P filepath flags mode); simpl.
  - unfold get_file_size, bind, sys_fstat.
    rewrite of_nat_ltb_0. simpl. rewrite lookup_insert_eq.
    destruct (fs_fstat P filepath) as [sz|]; simpl.
    + rewrite of_nat_eqb_m1. simpl. split.
      * split; [intros _; split; congruence | intros _; eauto].
      * intros f w' [= <- <-]. simpl.
        split; [reflexivity|]. split; [apply lookup_insert_eq | reflexivity].
    + split.
      * split; [intros (f & w' & H); discriminate H | intros [_ H]; congruence].
      * intros f w' H. discriminate H.
  - split.
    + split; [intros (f & w' & H); discriminate H | intros [H _]; discriminate H].
    + intros f w' H. discriminate H.
Qed.

(** X7: an object that was constructed and is then destroyed closes its
    descriptor once and nothing else: the log gains the one [close], the
    descriptor is open no more, and when its number was free before the
    construction the table of descriptors is as it was. *)
Theorem file_wrapper_closes_its_descriptor_once
    (P : platform) (filepath : string) (flags : Z) (mode : option Z)
    (w w1 w2 : world) (f : file_wrapper) :
  file_wrapper_ctor P filepath flags mode w = (Ok f, w1) ->
  file_wrapper_dtor f w1 = (Ok tt, w2) ->
  w_log w2 = w_log w ++ [ev_close (fd f)] /\
  w_fds w2 !! fd f = None /\
  (w_fds w !! fd f = None -> w_fds w2 = w_fds w).
Proof.
  intros Hctor Hdtor.
  destruct (file_wrapper_lifetime P filepath flags mode w f w1 w2 Hctor Hdtor)
    as (Hlog & Hfds & Hclosed).
  split; [exact Hlog|]. split; [exact Hclosed|].
  intros Hfree. rewrite Hfds. now apply delete_id.
Qed.

Lemma file_wrapper_closes_its_descriptor_witness :
  w_log (snd (file_wrapper_dtor (mk_file_wrapper 3 4096)
    (snd (file_wrapper_ctor
            (example_platform true (Some 4096) None false mode_off)
            "/data/in.bin" O_RDONLY None empty_world))))
  = [] ++ [ev_close 3].
Proof.
  pose (P0 := example_platform true (Some 4096) None false mode_off).
  destruct (file_wrapper_closes_its_descriptor_once P0 "/data/in.bin" O_RDONLY
              None empty_world
              (snd (file_wrapper_ctor P0 "/data/in.bin" O_RDONLY None
                      empty_world))
              (snd (file_wrapper_dtor (mk_file_wrapper 3 4096)
                 (snd (file_wrapper_ctor P0 "/data/in.bin" O_RDONLY None
                         empty_world))))
              (mk_file_wrapper 3 4096)) as (Hlog & _);
    [vm_compute; reflexivity | reflexivity |].
  exact Hlog.
Defined.

(** ** cufile_shim *)

Ltac shim_built :=
  do 2 eexists; (split; [reflexivity|]); simpl; rewrite <- ?app_assoc;
  repeat split; try reflexivity; try discriminate; try congruence.

(** The constructor in full: the state it leaves, and the calls it made. *)
Lemma cufile_shim_ctor_built P w :
  exists s w',
    cufile_shim_ctor P w = (Ok s, w') /\
    is_valid s
    = all_resolved P
      && call_driver_open P (dlsym P (dlopen P "libcufile.so") "cuFileDriverOpen") /\
    (is_valid s = true ->
     map (fun name => dlsym P (dlopen P "libcufile.so") name) shim_symbols
     = [driver_open s; driver_close s; handle_register s; handle_deregister s;
        shim_read s; shim_write s]) /\
    w_log w'
    = w_log w ++ ev_dlopen "libcufile.so"
        :: (if all_resolved P
            then [ev_driver_open
                    (dlsym P (dlopen P "libcufile.so") "cuFileDriverOpen")]
            else []) /\
    except_log w' = except_log w.
Proof.
  unfold all_resolved, shim_symbols. cbn [forallb map].
  unfold cufile_shim_ctor, cufile_shim_try.
  unfold bind at 1. unfold emit at 1, modify at 1. simpl.
  unfold bind at 1. unfold this_set at 1, modify at 1. simpl.
  set (lib := dlopen P "libcufile.so").
  unfold bind at 1. rewrite resolve_run. simpl.
  destruct (dlsym P lib "cuFileDriverOpen") as [f_open|] eqn:E1;
    [|shim_built].
  unfold bind at 1. rewrite resolve_run. simpl.
  destruct (dlsym P lib "cuFileDriverClose") as [f_close|] eqn:E2;
    [|shim_built].
  unfold bind at 1. rewrite resolve_run. simpl.
  destruct (dlsym P lib "cuFileHandleRegister") as [f_reg|] eqn:E3;
    [|shim_built].
  unfold bind at 1. rewrite resolve_run. simpl.
  destruct (dlsym P lib "cuFileHandleDeregister") as [f_dereg|] eqn:E4;
    [|shim_built].
  unfold bind at 1. rewrite resolve_run. simpl.
  destruct (dlsym P lib "cuFileRead") as [f_read|] eqn:E5;
    [|shim_built].
  unfold bind at 1. rewrite resolve_run. simpl.
  destruct (dlsym P lib "cuFileWrite") as [f_write|] eqn:E6;
    [|shim_built].
  unfold bind, this_get, gets, emit, modify, CUDF_EXPECTS, CUDF_FAIL, throw, ret.
  simpl.
  destruct (call_driver_open P (Some f_open)); shim_built.
Qed.

(** X8: the shim is valid exactly when each of the six symbols was found
    and the driver opened; a valid shim holds, for every entry point, the
    address the loader gave for its symbol, and none of them is null. *)
Theorem cufile_shim_valid_iff_resolved_and_opened (P : platform) (w : world) :
  exists s w',
    cufile_shim_ctor P w = (Ok s, w') /\
    is_valid s
    = all_resolved P
      && call_driver_open P (dlsym P (dlopen P "libcufile.so") "cuFileDriverOpen") /\
    (is_valid s = true ->
     map (fun name => dlsym P (dlopen P "libcufile.so") name) shim_symbols
     = [driver_open s; driver_close s; handle_register s; handle_deregister s;
        shim_read s; shim_write s] /\
     forallb not_null
       [driver_open s; driver_close s; handle_register s; handle_deregister s;
        shim_read s; shim_write s] = true).
Proof.
  destruct (cufile_shim_ctor_built P w) as (s & w' & Hrun & Hvalid & Hptr & _).
  exists s, w'. split; [exact Hrun|]. split; [exact Hvalid|].
  intros Hv. split; [exact (Hptr Hv)|].
  rewrite <- (Hptr Hv). rewrite Hvalid in Hv.
  apply andb_true_iff in Hv as [Hall _].
  unfold all_resolved in Hall. rewrite forallb_forall in Hall.
  apply forallb_forall. intros p Hp.
  apply in_map_iff in Hp as (name & <- & Hname). exact (Hall name Hname).
Qed.

(** X9: the constructor of the shim never throws; it loads the library
    once, calls the driver-open entry point only after all six symbols were
    found, never calls driver-close nor unloads the library, and changes
    nothing of the process besides. *)
Theorem cufile_shim_ctor_calls (P : platform) (w : world) :
  exists s w',
    cufile_shim_ctor P w = (Ok s, w') /\
    w_log w'
    = w_log w ++ ev_dlopen "libcufile.so"
        :: (if all_resolved P
            then [ev_driver_open
                    (dlsym P (dlopen P "libcufile.so") "cuFileDriverOpen")]
            else []) /\
    except_log w' = except_log w.
Proof.
  destruct (cufile_shim_ctor_built P w) as (s & w' & Hrun & _ & _ & Hlog & Hrest).
  exists s, w'. auto.
Qed.

(** X10: when the one construction of the shim succeeded, the call of
    [instance()] that made it and every later call return that shim, and
    the later calls change nothing in the process: the library is loaded and
    the driver opened once. *)
Theorem cufile_shim_instance_constructs_once
    (P : platform) (w w1 : world) (s : cufile_shim) :
  w_shim w = None ->
  cufile_shim_ctor P w = (Ok s, w1) ->
  init_error s = None ->
  cufile_shim_instance P w = (Ok s, set_shim (Some s) w1) /\
  forall n,
    call_n (cufile_shim_instance P) n (set_shim (Some s) w1)
    = (repeat (Ok s) n, set_shim (Some s) w1).
Proof.
  intros Hnone Hctor Hv. split.
  - rewrite (cufile_shim_instance_first P w s w1 Hnone Hctor), Hv. reflexivity.
  - apply call_n_fixed.
    unfold cufile_shim_instance, bind, is_valid. simpl. rewrite Hv. reflexivity.
Qed.

Lemma cufile_shim_instance_constructs_once_witness :
  exists s after,
    cufile_shim_instance (example_platform true None (Some 7) true mode_optional)
      empty_world = (Ok s, after) /\
    call_n (cufile_shim_instance
              (example_platform true None (Some 7) true mode_optional)) 2 after
    = (repeat (Ok s) 2, after).
Proof.
  pose (P0 := example_platform true None (Some 7) true mode_optional).
  destruct (cufile_shim_instance_constructs_once P0 empty_world
              (snd (cufile_shim_ctor P0 empty_world))
              (mk_cufile_shim (Some 7) (Some 1) (Some 1) None (Some 1) (Some 1)
                 (Some 1) (Some 1)))
    as [H1 H2]; [reflexivity | vm_compute; reflexivity | reflexivity |].
  do 2 eexists. split; [exact H1 | exact (H2 2%nat)].
Defined.

(** ** cufile_config *)

Section ConfigFrame.
Variable P : platform.
Context {B : Type} (part : world -> B).
Hypothesis Hfile :
  forall (text : gmap string string -> string) w,
    part (set_files (fun fs => insert (cudf_config_path P) (text fs) fs) w)
    = part w.
Hypothesis Henv :
  forall v w, part (set_env (insert (json_path_env_var P) v) w) = part w.

Lemma ofstream_put_keeps text :
  keeps part (ofstream_put (cudf_config_path P) text).
Proof.
  intros w. unfold ofstream_put, modify. cbn [snd]. apply Hfile.
Qed.

Lemma config_loop_keeps_part this lines :
  keeps part (config_loop P this (cudf_config_path P) lines).
Proof.
  induction lines as [|line rest IH]; simpl.
  - apply keeps_ret.
  - apply keeps_bind.
    + destruct (found tag line); apply ofstream_put_keeps.
    + intros _. apply keeps_bind.
      * intros w. unfold sys_setenv.
        destruct (negb _); [reflexivity|].
        destruct (w_env w !! _); [destruct (0 =? 0)|];
          try reflexivity; apply Henv.
      * intros r. apply keeps_bind; [apply keeps_EXPECTS|].
        intros _. exact IH.
Qed.

Lemma cufile_config_ctor_keeps_part : keeps part (cufile_config_ctor P).
Proof.
  unfold cufile_config_ctor.
  apply keeps_bind; [intros w; reflexivity|].
  intros policy. destruct (is_enabled P _); [|apply keeps_ret].
  apply keeps_bind; [intros w; reflexivity|]. intros path.
  apply keeps_bind; [intros w; exact (Hfile (fun _ => EmptyString) w)|].
  intros _.
  apply keeps_bind; [apply keeps_gets|]. intros lines.
  apply keeps_bind; [apply config_loop_keeps_part|]. intros _.
  apply keeps_ret.
Qed.
End ConfigFrame.

(** X11: whatever its outcome, the constructor of the policy writes no file
    but the private copy, changes no environment variable but the one of the
    configuration path, and leaves the descriptors, the singletons and the
    log of calls as they were; the user's configuration file is only
    read. *)
Theorem cufile_config_ctor_touches_only_its_copy (P : platform) (w : world) :
  (forall p, p <> cudf_config_path P ->
     w_files (snd (cufile_config_ctor P w)) !! p = w_files w !! p) /\
  (forall k, k <> json_path_env_var P ->
     w_env (snd (cufile_config_ctor P w)) !! k = w_env w !! k) /\
  rest_of_process (snd (cufile_config_ctor P w)) = rest_of_process w.
Proof.
  split; [|split].
  - intros p Hp.
    apply (cufile_config_ctor_keeps_part P (fun w => w_files w !! p)).
    + intros v w0. simpl. now rewrite lookup_insert_ne.
    + intros v w0. reflexivity.
  - intros k Hk.
    apply (cufile_config_ctor_keeps_part P (fun w => w_env w !! k)).
    + intros v w0. reflexivity.
    + intros v w0. simpl. now rewrite lookup_insert_ne.
  - apply cufile_config_ctor_keeps.
Qed.

(** X12: once [cufile_config::instance()] has returned the policy, every
    later call returns the same policy and changes nothing: the
    configuration file is copied and the variable set by the first call
    only, and a later change of the environment does not reach the
    policy. *)
Theorem cufile_config_instance_constructs_once
    (P : platform) (w w1 : world) (cfg : cufile_config) :
  cufile_config_instance P w = (Ok cfg, w1) ->
  forall (change : gmap string string -> gmap string string) (n : nat),
    call_n (cufile_config_instance P) n (set_env change w1)
    = (repeat (Ok cfg) n, set_env change w1).
Proof.
  intros Hrun change n. apply call_n_fixed.
  apply cufile_config_instance_again. simpl.
  apply (cufile_config_instance_ok P w cfg w1 Hrun).
Qed.

Lemma cufile_config_instance_constructs_once_witness :
  call_n (cufile_config_instance
            (example_platform true None None false mode_required)) 2
    (set_env (insert "LIBCUDF_CUFILE_POLICY" "OFF")
       (snd (cufile_config_instance
               (example_platform true None None false mode_required)
               config_world)))
  = (repeat (Ok (mk_cufile_config "DEFAULT")) 2,
     set_env (insert "LIBCUDF_CUFILE_POLICY" "OFF")
       (snd (cufile_config_instance
               (example_platform true None None false mode_required)
               config_world))).
Proof.
  apply (cufile_config_instance_constructs_once
           (example_platform true None None false mode_required) config_world).
  vm_compute. reflexivity.
Defined.

Lemma rewritten_without_key value m (lines : list string) :
  Forall (fun line => found tag line = false) lines ->
  map (rewritten value m) lines = lines.
Proof.
  induction 1 as [|line lines Hline _ IH]; [reflexivity|].
  cbn [map]. rewrite IH. unfold rewritten. rewrite Hline. reflexivity.
Qed.

(** X13: a configuration file in which no line has the key is copied line
    for line, under either mode. *)
Theorem config_without_the_key_is_copied_unchanged (P : platform) (w : world) :
  let this := mk_cufile_config (policy_in P w) in
  valid_env_name (json_path_env_var P) = true ->
  is_enabled P this = true ->
  config_file_path_in P w <> cudf_config_path P ->
  Forall (fun line => found tag line = false)
    (file_lines w (config_file_path_in P w)) ->
  exists w',
    cufile_config_ctor P w = (Ok this, w') /\
    file_lines w' (cudf_config_path P)
    = file_lines w (config_file_path_in P w).
Proof.
  intros this Hname Hen Hne Hnokey.
  destruct (cufile_config_ctor_enabled P w Hname Hen Hne)
    as (w' & Hrun & Hlines & _).
  exists w'. split; [exact Hrun|]. rewrite Hlines.
  apply rewritten_without_key. exact Hnokey.
Qed.

Lemma config_without_the_key_witness :
  exists w',
    cufile_config_ctor (example_platform true None None false mode_required)
      (mk_world ∅ {["/etc/cufile.json" := unlines ["{"; "}"]]} ∅ 3 None None [])
    = (Ok (mk_cufile_config "DEFAULT"), w') /\
    file_lines w' "/tmp/cudf_cufile_config/cufile.json" = ["{"; "}"].
Proof.
  destruct (config_without_the_key_is_copied_unchanged
              (example_platform true None None false mode_required)
              (mk_world ∅ {["/etc/cufile.json" := unlines ["{"; "}"]]} ∅ 3 None
                 None [])) as (w' & Hrun & Hlines).
  - reflexivity.
  - reflexivity.
  - intros H. vm_compute in H. discriminate H.
  - vm_compute. repeat constructor.
  - exists w'. split; [exact Hrun|].
    etransitivity; [exact Hlines|]. vm_compute. reflexivity.
Defined.

(** ** The factories *)

Lemma make_cufile_input_cases P filepath w w1 cfg :
  cufile_config_instance P w = (Ok cfg, w1) ->
  (exists r w2, make_cufile_input P filepath w = (Ok r, w2)) \/
  (exists ex w2,
     make_cufile_input P filepath w = (Throw ex, w2) /\
     is_required P cfg = true /\
     cufile_input_impl_ctor P filepath w1 = (Throw ex, w2)).
Proof.
  intros Hconfig.
  destruct (CUFILE_FOUND P) eqn:Hfound.
  - destruct (is_enabled P cfg) eqn:Hen.
    + destruct (cufile_input_impl_ctor P filepath w1) as [[e|ex] w2] eqn:Hctor.
      * left. exists (Some e), w2.
        unfold make_cufile_input. rewrite Hfound.
        rewrite (bind_run _ _ _ _ _ Hconfig), Hen.
        unfold try_catch. rewrite (bind_run _ _ _ _ _ Hctor). reflexivity.
      * rewrite (make_cufile_input_throws P w w1 cfg Hfound Hconfig
                   filepath ex w2 Hen Hctor).
        destruct (is_required P cfg); [right | left]; eauto 6.
    + left. exists None, w1.
      apply (make_cufile_input_disabled P w w1 cfg Hfound Hconfig _ Hen).
  - left. exists None, w. unfold make_cufile_input. now rewrite Hfound.
Qed.

Lemma make_cufile_output_cases P filepath w w1 cfg :
  cufile_config_instance P w = (Ok cfg, w1) ->
  (exists r w2, make_cufile_output P filepath w = (Ok r, w2)) \/
  (exists ex w2,
     make_cufile_output P filepath w = (Throw ex, w2) /\
     is_required P cfg = true /\
     cufile_output_impl_ctor P filepath w1 = (Throw ex, w2)).
Proof.
  intros Hconfig.
  destruct (CUFILE_FOUND P) eqn:Hfound.
  - destruct (is_enabled P cfg) eqn:Hen.
    + destruct (cufile_output_impl_ctor P filepath w1) as [[e|ex] w2] eqn:Hctor.
      * left. exists (Some e), w2.
        unfold make_cufile_output. rewrite Hfound.
        rewrite (bind_run _ _ _ _ _ Hconfig), Hen.
        unfold try_catch. rewrite (bind_run _ _ _ _ _ Hctor). reflexivity.
      * rewrite (make_cufile_output_throws P w w1 cfg Hfound Hconfig
                   filepath ex w2 Hen Hctor).
        destruct (is_required P cfg); [right | left]; eauto 6.
    + left. exists None, w1.
      apply (make_cufile_output_disabled P w w1 cfg Hfound Hconfig _ Hen).
  - left. exists None, w. unfold make_cufile_output. now rewrite Hfound.
Qed.

Lemma make_cufile_without_cufile P filepath w :
  CUFILE_FOUND P = false ->
  make_cufile_input P filepath w = (Ok None, w) /\
  make_cufile_output P filepath w = (Ok None, w).
Proof.
  intros Hfound. unfold make_cufile_input, make_cufile_output.
  rewrite Hfound. split; reflexivity.
Qed.

Lemma make_cufile_input_throws_found P filepath w ex w2 :
  make_cufile_input P filepath w = (Throw ex, w2) -> CUFILE_FOUND P = true.
Proof.
  destruct (CUFILE_FOUND P) eqn:Hfound; [reflexivity|].
  destruct (make_cufile_without_cufile P filepath w Hfound) as [H _].
  rewrite H. discriminate.
Qed.

Lemma make_cufile_output_throws_found P filepath w ex w2 :
  make_cufile_output P filepath w = (Throw ex, w2) -> CUFILE_FOUND P = true.
Proof.
  destruct (CUFILE_FOUND P) eqn:Hfound; [reflexivity|].
  destruct (make_cufile_without_cufile P filepath w Hfound) as [_ H].
  rewrite H. discriminate.
Qed.

(** X14: in a build without CUFILE_FOUND a factory returns empty for every
    file and every state of the process, which it leaves as it is, whatever
    the mode.  With the policy of the process at hand, a factory throws only
    in a build with cuFile and under the required mode, and what it throws
    is the exception of the constructor of its engine; under every other
    mode it returns (an engine or empty) for every file. *)
Theorem make_cufile_throws_only_when_required
    (P : platform) (filepath : string) (w : world) :
  (CUFILE_FOUND P = false ->
     make_cufile_input P filepath w = (Ok None, w) /\
     make_cufile_output P filepath w = (Ok None, w)) /\
  forall (cfg : cufile_config) (w1 : world),
    cufile_config_instance P w = (Ok cfg, w1) ->
    (forall ex w2,
       make_cufile_input P filepath w = (Throw ex, w2) ->
       CUFILE_FOUND P = true /\
       is_required P cfg = true /\
       cufile_input_impl_ctor P filepath w1 = (Throw ex, w2)) /\
    (forall ex w2,
       make_cufile_output P filepath w = (Throw ex, w2) ->
       CUFILE_FOUND P = true /\
       is_required P cfg = true /\
       cufile_output_impl_ctor P filepath w1 = (Throw ex, w2)) /\
    (is_required P cfg = false ->
       (exists r w2, make_cufile_input P filepath w = (Ok r, w2)) /\
       (exists r w2, make_cufile_output P filepath w = (Ok r, w2))).
Proof.
  split; [apply make_cufile_without_cufile|].
  intros cfg w1 Hconfig.
  pose proof (make_cufile_input_cases P filepath w w1 cfg Hconfig) as Hin.
  pose proof (make_cufile_output_cases P filepath w w1 cfg Hconfig) as Hout.
  split; [|split].
  - intros ex w2 H.
    split; [exact (make_cufile_input_throws_found P filepath w ex w2 H)|].
    destruct Hin as [(r & w3 & Hr)|(ex' & w3 & Hr & Hreq & Hctor)];
      rewrite Hr in H; [discriminate H|].
    injection H as <- <-. auto.
  - intros ex w2 H.
    split; [exact (make_cufile_output_throws_found P filepath w ex w2 H)|].
    destruct Hout as [(r & w3 & Hr)|(ex' & w3 & Hr & Hreq & Hctor)];
      rewrite Hr in H; [discriminate H|].
    injection H as <- <-. auto.
  - intros Hreq. split.
    + destruct Hin as [H|(ex & w2 & _ & Hr & _)]; [exact H | congruence].
    + destruct Hout as [H|(ex & w2 & _ & Hr & _)]; [exact H | congruence].
Qed.

Lemma make_cufile_throws_only_when_required_witness :
  (make_cufile_input
     (without_cufile (example_platform false None None false mode_required))
     "/no/such/file" empty_world = (Ok None, empty_world) /\
   make_cufile_output
     (without_cufile (example_platform false None None false mode_required))
     "/no/such/file" empty_world = (Ok None, empty_world)) /\
  ((exists r w2,
      make_cufile_input (example_platform false None None false mode_optional)
        "/no/such/file" empty_world = (Ok r, w2)) /\
   (exists r w2,
      make_cufile_output (example_platform false None None false mode_optional)
        "/no/such/file" empty_world = (Ok r, w2))).
Proof.
  split.
  - exact (proj1 (make_cufile_throws_only_when_required
                    (without_cufile
                       (example_platform false None None false mode_required))
                    "/no/such/file" empty_world) eq_refl).
  - pose (P0 := example_platform false None None false mode_optional).
    destruct (proj2 (make_cufile_throws_only_when_required P0 "/no/such/file"
                       empty_world)
                (mk_cufile_config "DEFAULT")
                (snd (cufile_config_instance P0 empty_world)) eq_refl)
      as (_ & _ & H).
    exact (H eq_refl).
Defined.

(** X15: with a shim that is invalid, the constructor of either engine
    throws the error of [instance()] before it opens the file: the process
    is left exactly as it was, with no descriptor opened and no call to the
    backend made. *)
Theorem engine_ctor_with_invalid_shim_opens_nothing
    (P : platform) (filepath : string) (w : world) (s : cufile_shim) (e : exn) :
  w_shim w = Some s ->
  init_error s = Some e ->
  cufile_input_impl_ctor P filepath w
  = (Throw (logic_error (at_line P 149 +:+ what e)), w) /\
  cufile_output_impl_ctor P filepath w
  = (Throw (logic_error (at_line P 149 +:+ what e)), w).
Proof.
  intros Hs He.
  pose proof (cufile_shim_instance_invalid P w s e Hs He) as Hinst.
  split.
  - unfold cufile_input_impl_ctor. now apply bind_throw.
  - unfold cufile_output_impl_ctor. now apply bind_throw.
Qed.

Lemma engine_ctor_with_invalid_shim_witness :
  cufile_input_impl_ctor (example_platform true (Some 8) None false mode_optional)
    "/data/in.bin"
    (set_shim (Some (set_init_error (Some (logic_error "no driver"))
                       shim_default)) empty_world)
  = (Throw (logic_error ("cuDF failure: " +:+ "no driver")),
     set_shim (Some (set_init_error (Some (logic_error "no driver"))
                       shim_default)) empty_world).
Proof.
  apply (engine_ctor_with_invalid_shim_opens_nothing
           (example_platform true (Some 8) None false mode_optional)
           "/data/in.bin"
           (set_shim (Some (set_init_error (Some (logic_error "no driver"))
                              shim_default)) empty_world)
           (set_init_error (Some (logic_error "no driver")) shim_default)
           (logic_error "no driver")); reflexivity.
Defined.

(** X16: a transfer of no bytes, at any offset, makes no slice task and so
    no call to the backend; the read returns 0 and the write future
    resolves. *)
Theorem empty_transfer_makes_no_task
    (at_line : nat -> string) (gds : Z -> Z -> Z -> Z) (offset : Z) :
  make_sliced_tasks (read_slice at_line gds) offset 0 = [] /\
  make_sliced_tasks (write_slice at_line gds) offset 0 = [] /\
  read at_line gds offset 0 = Ok 0 /\
  deferred_get (write_async at_line gds offset 0) = Ok tt.
Proof. repeat split. Qed.

(** X17: when the user's configuration file cannot be read, the
    constructor of an enabled policy still returns: it leaves an empty
    private copy, and, having copied no line, does not set the variable of
    the configuration path nor any other. *)
Theorem config_file_missing_leaves_environment
    (P : platform) (w : world) :
  let this := mk_cufile_config (policy_in P w) in
  is_enabled P this = true ->
  w_files w !! config_file_path_in P w = None ->
  config_file_path_in P w <> cudf_config_path P ->
  exists w',
    cufile_config_ctor P w = (Ok this, w') /\
    w_files w' !! cudf_config_path P = Some EmptyString /\
    w_env w' = w_env w.
Proof.
  intros this Hen Hnone Hne.
  set (w1 := set_files (insert (cudf_config_path P) EmptyString) w).
  exists w1. split; [|split].
  - unfold cufile_config_ctor.
    rewrite (bind_run _ _ _ _ _ (getenv_or_run _ _ w)).
    fold (policy_in P w). fold this. rewrite Hen.
    rewrite (bind_run _ _ _ _ _ (getenv_or_run _ _ w)).
    fold (config_file_path_in P w).
    rewrite (bind_run (ofstream_open _) _ w tt w1) by reflexivity.
    rewrite (bind_run (ifstream_lines _) _ w1 [] w1).
    2:{ unfold ifstream_lines, gets, w1. simpl.
        rewrite lookup_insert_ne by congruence. rewrite Hnone. reflexivity. }
    reflexivity.
  - unfold w1. simpl. apply lookup_insert_eq.
  - reflexivity.
Qed.

Lemma config_file_missing_witness :
  exists w',
    cufile_config_ctor (example_platform true None None false mode_required)
      empty_world
    = (Ok (mk_cufile_config "DEFAULT"), w') /\
    w_files w' !! "/tmp/cudf_cufile_config/cufile.json" = Some EmptyString /\
    w_env w' = ∅.
Proof.
  apply (config_file_missing_leaves_environment
           (example_platform true None None false mode_required) empty_world).
  - reflexivity.
  - reflexivity.
  - intros H. vm_compute in H. discriminate H.
Defined.
